(** * Filler-word removal for speech-to-text transcripts

    A shallow embedding of [livekit/plugins/filler_remover/stt.py]
    (classes [FillerRemoverSTT] and [FilteredRecognizeStream]) and of the
    mock stream of [examples/voice_agents/test_filler_remover.py], with the
    properties of the filter function, of the streaming adapter and of the
    batch adapter.

    Python strings are modelled as [string]; a character stands for the code
    point of the same number, so the texts covered are those over
    U+0000..U+00FF, where [str.lower] works character by character.
    Logging calls have no influence on any returned value and are left out. *)

From Stdlib Require Import String Ascii List Bool Arith NArith Lia Floats.
Import ListNotations.
Open Scope string_scope.

(** ** Python's [str] methods used by the source *)

Module PyStr.

(** [str.isspace] for one character: U+0009..U+000D, U+001C..U+0020,
    U+0085 and U+00A0 are the white-space code points below U+0100. *)
Definition isspace (c : ascii) : bool :=
  let n := N_of_ascii c in
  (((9 <=? n) && (n <=? 13)) || ((28 <=? n) && (n <=? 32))
   || (n =? 133) || (n =? 160))%N.

(** [str.lower] for one character: A..Z and the upper-case letters of
    U+00C0..U+00DE (all but the multiplication sign U+00D7) move up by 32. *)
Definition lower_char (c : ascii) : ascii :=
  let n := N_of_ascii c in
  if (((65 <=? n) && (n <=? 90))
      || ((192 <=? n) && (n <=? 222) && negb (n =? 215)))%N
  then ascii_of_N (n + 32)
  else c.

Fixpoint lower (s : string) : string :=
  match s with
  | EmptyString => EmptyString
  | String c s' => String (lower_char c) (lower s')
  end.

(** The word being scanned is emitted when it is not empty. *)
Definition emit (cur : string) (rest : list string) : list string :=
  match cur with
  | EmptyString => rest
  | _ => cur :: rest
  end.

(** The scanning loop of [str.split()] without arguments: [cur] holds the
    characters of the word read so far; a white-space character ends it. *)
Fixpoint split_aux (cur : string) (s : string) : list string :=
  match s with
  | EmptyString => emit cur []
  | String c s' =>
      if isspace c then emit cur (split_aux EmptyString s')
      else split_aux (cur ++ String c EmptyString) s'
  end.

Definition split (s : string) : list string := split_aux EmptyString s.

(** [sep.join(words)] *)
Fixpoint join (sep : string) (words : list string) : string :=
  match words with
  | [] => EmptyString
  | [w] => w
  | w :: ws => w ++ sep ++ join sep ws
  end.

(** [str.lstrip()], [str.rstrip()] and [str.strip()] without arguments. *)
Fixpoint lstrip (s : string) : string :=
  match s with
  | EmptyString => EmptyString
  | String c s' => if isspace c then lstrip s' else s
  end.

Fixpoint rstrip (s : string) : string :=
  match s with
  | EmptyString => EmptyString
  | String c s' =>
      match rstrip s' with
      | EmptyString => if isspace c then EmptyString else String c EmptyString
      | r => String c r
      end
  end.

Definition strip (s : string) : string := rstrip (lstrip s).

(** [x in words] for a list of strings. *)
Definition contains (words : list string) (x : string) : bool :=
  existsb (String.eqb x) words.

(** Truth value of a string ([not s] is its negation). *)
Definition truthy (s : string) : bool :=
  match s with
  | EmptyString => false
  | _ => true
  end.

End PyStr.

Import PyStr.

(** ** The filter function *)

(** [FillerRemoverSTT.__init__] stores the filler words lower-cased. *)
Definition init_filler_words (filler_words : list string) : list string :=
  map lower filler_words.

(** [_remove_fillers], the same body in [FillerRemoverSTT] and in
    [FilteredRecognizeStream]; [filler_words] is [self._filler_words]. *)
Definition remove_fillers (filler_words : list string) (text : string) : string :=
  let words := split text in
  let filtered_words :=
    filter (fun word => negb (contains filler_words (lower word))) words in
  join " " filtered_words.

(** ** Speech events

    [SpeechEventType], [SpeechData] and [SpeechEvent] belong to
    [livekit.agents.stt]; the records carry the fields that the source reads
    and writes.  The two transcript kinds are the ones the source names. *)

Inductive SpeechEventType : Type :=
| START_OF_SPEECH
| INTERIM_TRANSCRIPT
| PREFLIGHT_TRANSCRIPT
| FINAL_TRANSCRIPT
| RECOGNITION_USAGE
| END_OF_SPEECH.

Record SpeechData : Type := mkSpeechData {
  language : string;
  text : string;
  start_time : float;
  end_time : float;
  confidence : float
}.

Record SpeechEvent : Type := mkSpeechEvent {
  type : SpeechEventType;
  alternatives : list SpeechData
}.

(** [event.type == INTERIM_TRANSCRIPT or event.type == FINAL_TRANSCRIPT] *)
Definition is_transcript (t : SpeechEventType) : bool :=
  match t with
  | INTERIM_TRANSCRIPT | FINAL_TRANSCRIPT => true
  | _ => false
  end.

(** ** Exceptions and method calls *)

Inductive exn : Type :=
| StopAsyncIteration
| AttributeError (attr : string)
| IndexError
| EngineError (msg : string).

Inductive result (A : Type) : Type :=
| Return (a : A)
| Raise (e : exn).
Arguments Return {A} a.
Arguments Raise {A} e.

(** [xs[i]] on a Python list. *)
Definition getitem {A : Type} (xs : list A) (i : nat) : result A :=
  match nth_error xs i with
  | Some x => Return x
  | None => Raise IndexError
  end.

(** Truth value of a Python list. *)
Definition nonempty {A : Type} (xs : list A) : bool :=
  match xs with
  | [] => false
  | _ => true
  end.

(** A method call on an object whose state has type [St]: it returns or
    raises, and leaves a new state. *)
Definition method (St A : Type) : Type := St -> result A * St.

Definition ret {St A : Type} (a : A) : method St A := fun s => (Return a, s).

Definition raise {St A : Type} (e : exn) : method St A := fun s => (Raise e, s).

Definition bind {St A B : Type} (m : method St A) (k : A -> method St B) : method St B :=
  fun s =>
    match m s with
    | (Return a, s1) => k a s1
    | (Raise e, s1) => (Raise e, s1)
    end.

Notation "x <- m ;; k" := (bind m (fun x => k))
  (at level 61, m at next level, right associativity).

(** The event built at the end of [__anext__] and of [_recognize_impl]:
    one new alternative, the event type kept. *)
Definition new_event (event : SpeechEvent) (alt0 : SpeechData) (cleaned_text : string)
  : SpeechEvent :=
  let new_alternative :=
    {| language := language alt0;
       text := cleaned_text;
       start_time := start_time alt0;
       end_time := end_time alt0;
       confidence := confidence alt0 |} in
  {| type := type event; alternatives := [new_alternative] |}.

(** ** The streaming adapter: [FilteredRecognizeStream] *)

Section FilteredStream.

(** State of the wrapped stream object, audio frames, and the values its
    methods return. *)
Variables (St Frame Value : Type).

(** The wrapped stream is duck-typed: an attribute may be absent. *)
Record Stream : Type := mkStream {
  s_anext : option (method St SpeechEvent);
  s_push_frame : option (Frame -> method St Value);
  s_flush : option (method St Value);
  s_aclose : option (method St Value)
}.

(** [self._underlying_stream] and [self._filler_words]; [PyNone] is
    Python's [None]. *)
Variable underlying_stream : Stream.
Variable PyNone : Value.
Variable filler_words : list string.

(** [push_frame]: the attribute is looked up without a guard. *)
Definition push_frame (frame : Frame) : method St Value :=
  match s_push_frame underlying_stream with
  | Some m => m frame
  | None => raise (AttributeError "push_frame")
  end.

(** [flush]: guarded by [hasattr]; falls through to [None] otherwise. *)
Definition flush : method St Value :=
  match s_flush underlying_stream with
  | Some m => m
  | None => ret PyNone
  end.

(** [aclose]: guarded by [hasattr]; the awaited value is dropped. *)
Definition aclose : method St Value :=
  match s_aclose underlying_stream with
  | Some m => _ <- m ;; ret PyNone
  | None => ret PyNone
  end.

(** [await self._underlying_stream.__anext__()] *)
Definition underlying_anext : method St SpeechEvent :=
  match s_anext underlying_stream with
  | Some m => m
  | None => raise (AttributeError "__anext__")
  end.

(** [__anext__].  The method calls itself after a filler-only event, so the
    model takes [fuel], the number of calls allowed; [None] means the
    fuel ran out. *)
Fixpoint anext (fuel : nat) (s : St) : option (result SpeechEvent * St) :=
  match fuel with
  | O => None
  | S fuel' =>
      match underlying_anext s with
      | (Raise e, s1) => Some (Raise e, s1)
      | (Return event, s1) =>
          if is_transcript (type event) then
            if negb (nonempty (alternatives event)) then Some (Return event, s1)
            else
              match getitem (alternatives event) 0 with
              | Raise e => Some (Raise e, s1)
              | Return alt0 =>
                  let original_text := text alt0 in
                  let cleaned_text := remove_fillers filler_words original_text in
                  if negb (truthy (strip cleaned_text)) then anext fuel' s1
                  else Some (Return (new_event event alt0 cleaned_text), s1)
              end
          else Some (Return event, s1)
      end
  end.

(** [async for event in stream]: the events received until the stream
    raises; [StopAsyncIteration] ends the loop normally ([None]), any other
    exception leaves it.  [n] bounds the number of iterations. *)
Fixpoint async_for (n fuel : nat) (s : St)
  : option (list SpeechEvent * option exn * St) :=
  match n with
  | O => None
  | S n' =>
      match anext fuel s with
      | None => None
      | Some (Raise StopAsyncIteration, s1) => Some ([], None, s1)
      | Some (Raise e, s1) => Some ([], Some e, s1)
      | Some (Return event, s1) =>
          match async_for n' fuel s1 with
          | None => None
          | Some (events, r, s2) => Some (event :: events, r, s2)
          end
      end
  end.

End FilteredStream.

Arguments mkStream {St Frame Value}.
Arguments s_anext {St Frame Value}.
Arguments s_push_frame {St Frame Value}.
Arguments s_flush {St Frame Value}.
Arguments s_aclose {St Frame Value}.
Arguments push_frame {St Frame Value}.
Arguments flush {St Frame Value}.
Arguments aclose {St Frame Value}.
Arguments underlying_anext {St Frame Value}.
Arguments anext {St Frame Value}.
Arguments async_for {St Frame Value}.

(** ** The batch adapter: [FillerRemoverSTT._recognize_impl] *)

Section FillerRemoverSTT.

(** State of the wrapped engine, audio buffers, language and connection
    options. *)
Variables (Eng AudioBuffer Language APIConnectOptions : Type).

(** [self._underlying_stt.recognize] and [self._filler_words] *)
Variable recognize : AudioBuffer -> Language -> APIConnectOptions -> method Eng SpeechEvent.
Variable filler_words : list string.

Definition recognize_impl (buffer : AudioBuffer) (lang : Language)
    (conn_options : APIConnectOptions) : method Eng SpeechEvent :=
  event <- recognize buffer lang conn_options ;;
  if nonempty (alternatives event) then
    alt0 <- (fun s => (getitem (alternatives event) 0, s)) ;;
    let original_text := text alt0 in
    let cleaned_text := remove_fillers filler_words original_text in
    ret (new_event event alt0 cleaned_text)
  else ret event.

End FillerRemoverSTT.

Arguments recognize_impl {Eng AudioBuffer Language APIConnectOptions}.

(** ** The mock stream of the tests

    [MockRecognizeStream] of [test_filler_remover.py]: a list of events and
    an index; it has [__anext__] and [aclose] (whose body is [pass]) and
    neither [push_frame] nor [flush].  The list is a parameter here. *)

Record MockRecognizeStream : Type := mkMock {
  _events : list SpeechEvent;
  _index : nat
}.

Definition mock_anext : method MockRecognizeStream SpeechEvent :=
  fun self =>
    if (List.length (_events self) <=? _index self)%nat then (Raise StopAsyncIteration, self)
    else
      match getitem (_events self) (_index self) with
      | Raise e => (Raise e, self)
      | Return event =>
          (Return event, {| _events := _events self; _index := _index self + 1 |})
      end.

Definition mock_aclose : method MockRecognizeStream unit := ret tt.

Definition mock_stream : Stream MockRecognizeStream unit unit :=
  {| s_anext := Some mock_anext;
     s_push_frame := None;
     s_flush := None;
     s_aclose := Some mock_aclose |}.

Definition mock_init (events : list SpeechEvent) : MockRecognizeStream :=
  {| _events := events; _index := 0 |}.

(** [stt.SpeechData(text=..., language=...)]: the times and the confidence
    default to 0.0. *)
Definition speech_data (t l : string) : SpeechData :=
  {| language := l; text := t; start_time := 0%float; end_time := 0%float;
     confidence := 0%float |}.

(** ** Specification-side notions *)

(** A string of white space only, a string without white space, and a
    string that is empty or starts with white space. *)
Fixpoint all_space (s : string) : bool :=
  match s with
  | EmptyString => true
  | String c s' => isspace c && all_space s'
  end.

Fixpoint no_space (s : string) : bool :=
  match s with
  | EmptyString => true
  | String c s' => negb (isspace c) && no_space s'
  end.

Definition at_boundary (s : string) : bool :=
  match s with
  | EmptyString => true
  | String c _ => isspace c
  end.

(** The white-space-delimited tokens of a text, as the specification words
    them: the text is white space, a token, white space, a token, ...;
    every token is a non-empty run without white space, and it is maximal
    (what follows it is white space or the end). *)
Inductive Tokens : string -> list string -> Prop :=
| Tokens_nil : forall ws,
    all_space ws = true -> Tokens ws []
| Tokens_cons : forall ws w rest ts,
    all_space ws = true ->
    w <> EmptyString ->
    no_space w = true ->
    at_boundary rest = true ->
    Tokens rest ts ->
    Tokens (ws ++ w ++ rest) (w :: ts).

(** A token is a filler when its lower-cased form is in the word list. *)
Definition is_filler (W : list string) (w : string) : bool :=
  contains W (lower w).

(** The tokens kept by the filter. *)
Definition kept (W : list string) (ts : list string) : list string :=
  filter (fun w => negb (is_filler W w)) ts.

(** White-space normalisation as the specification words it: leading and
    trailing white space removed, and every run of white space inside
    replaced by one space. *)
Definition next_is_space (s : string) : bool :=
  match s with
  | EmptyString => false
  | String c _ => isspace c
  end.

Fixpoint collapse (s : string) : string :=
  match s with
  | EmptyString => EmptyString
  | String c s' =>
      if isspace c then
        if next_is_space s' then collapse s' else String " " (collapse s')
      else String c (collapse s')
  end.

Definition normalize_ws (s : string) : string := collapse (strip s).

(** The first word of a string that starts inside a word, and what follows. *)
Fixpoint take_word (s : string) : string :=
  match s with
  | EmptyString => EmptyString
  | String c s' => if isspace c then EmptyString else String c (take_word s')
  end.

Fixpoint drop_word (s : string) : string :=
  match s with
  | EmptyString => EmptyString
  | String c s' => if isspace c then s else drop_word s'
  end.

(** A transcript event whose filtered first-alternative text is empty after
    trimming. *)
Definition filler_only (W : list string) (e : SpeechEvent) : bool :=
  is_transcript (type e) &&
  match alternatives e with
  | [] => false
  | alt0 :: _ => negb (truthy (strip (remove_fillers W (text alt0))))
  end.

(** What the adapters hand on for an event that is not suppressed. *)
Definition forwarded (W : list string) (e : SpeechEvent) : SpeechEvent :=
  if is_transcript (type e) then
    match alternatives e with
    | [] => e
    | alt0 :: _ => new_event e alt0 (remove_fillers W (text alt0))
    end
  else e.

(** A word: not empty, no white space. *)
Definition is_word (w : string) : Prop := w <> "" /\ no_space w = true.

(** The events that survive, as forwarded. *)
Definition survivors (W : list string) (events : list SpeechEvent) : list SpeechEvent :=
  map (forwarded W) (filter (fun e => negb (filler_only W e)) events).

(** An alternative that differs from [alt0] in its text at most. *)
Definition same_but_text (a alt0 : SpeechData) (t : string) : Prop :=
  language a = language alt0 /\
  text a = t /\
  start_time a = start_time alt0 /\
  end_time a = end_time alt0 /\
  confidence a = confidence alt0.


(** ** Events of the tests *)

(** [stt.SpeechEvent(type=t, alternatives=[stt.SpeechData(text=txt, language="en")])] *)
Definition transcript (t : SpeechEventType) (txt : string) : SpeechEvent :=
  {| type := t; alternatives := [speech_data txt "en"] |}.

(** The list that [MockRecognizeStream.__init__] builds. *)
Definition test_events : list SpeechEvent :=
  [ transcript INTERIM_TRANSCRIPT "uh hello";
    transcript FINAL_TRANSCRIPT "uh hello world";
    transcript INTERIM_TRANSCRIPT "umm";
    transcript FINAL_TRANSCRIPT "umm" ].

(** An engine whose one-shot call returns the given event, as [MockSTT]
    does. *)
Definition mock_recognize (event : SpeechEvent) : unit -> unit -> unit -> method unit SpeechEvent :=
  fun _ _ _ => ret event.

(** An event with two alternatives, the second one lost on the way. *)
Definition two_alternatives : SpeechEvent :=
  {| type := FINAL_TRANSCRIPT;
     alternatives := [speech_data "hello world" "en"; speech_data "yellow world" "en"] |}.

(** An event without any filler word whose text the adapter changes. *)
Definition spaced_event : SpeechEvent :=
  transcript FINAL_TRANSCRIPT "  hello   world ".

(** ** The objects of [stt.py]

    [FillerRemoverSTT.__init__] keeps the wrapped engine and the lower-cased
    words; [FillerRemoverSTT.stream] asks the wrapped engine for a stream and
    wraps it with the stored words; [FilteredRecognizeStream.__init__] keeps
    the words it is given, as they are. *)

Record FillerRemoverSTT (E : Type) : Type := mkFillerRemoverSTT {
  _underlying_stt : E;
  _filler_words : list string
}.
Arguments mkFillerRemoverSTT {E}.
Arguments _underlying_stt {E}.
Arguments _filler_words {E}.

Definition FillerRemoverSTT_init {E : Type} (underlying_stt : E) (filler_words : list string)
  : FillerRemoverSTT E :=
  {| _underlying_stt := underlying_stt;
     _filler_words := init_filler_words filler_words |}.

Record FilteredRecognizeStream (St Frame Value : Type) : Type := mkFilteredRecognizeStream {
  _underlying_stream : Stream St Frame Value;
  _stream_filler_words : list string
}.
Arguments mkFilteredRecognizeStream {St Frame Value}.
Arguments _underlying_stream {St Frame Value}.
Arguments _stream_filler_words {St Frame Value}.

(** [FillerRemoverSTT.stream]: [engine_stream] is the [stream] method of the
    wrapped engine, which returns a stream object in its first state. *)
Definition FillerRemoverSTT_stream {E St Frame Value : Type}
    (engine_stream : E -> Stream St Frame Value * St) (self : FillerRemoverSTT E)
  : FilteredRecognizeStream St Frame Value * St :=
  let (underlying_stream, s0) := engine_stream (_underlying_stt self) in
  ({| _underlying_stream := underlying_stream;
      _stream_filler_words := _filler_words self |}, s0).

(** ** The first version: [filler_remover_stt.py]

    [stream] is an async generator over the events of the wrapped stream; it
    reads [event.alternatives[0]] without a guard and skips a filler-only
    event with [continue].  A generator is finished once it has raised. *)

Module Legacy.

Section Legacy.

Variables (St Frame Value : Type).
Variable underlying_stream : Stream St Frame Value.
Variable filler_words : list string.

(** One [__anext__] of the generator: [fuel] bounds the iterations of the
    loop, the flag says whether the generator is finished. *)
Fixpoint stream_anext (fuel : nat) (g : bool * St)
  : option (result SpeechEvent * (bool * St)) :=
  match fuel with
  | O => None
  | S fuel' =>
      let (finished, s) := g in
      if finished then Some (Raise StopAsyncIteration, (true, s))
      else
        match underlying_anext underlying_stream s with
        | (Raise e, s1) => Some (Raise e, (true, s1))
        | (Return event, s1) =>
            if is_transcript (type event) then
              match getitem (alternatives event) 0 with
              | Raise e => Some (Raise e, (true, s1))
              | Return alt0 =>
                  let original_text := text alt0 in
                  let cleaned_text := remove_fillers filler_words original_text in
                  if negb (truthy (strip cleaned_text)) then stream_anext fuel' (false, s1)
                  else Some (Return (new_event event alt0 cleaned_text), (false, s1))
              end
            else Some (Return event, (false, s1))
        end
  end.

End Legacy.

Section LegacyRecognize.

Variables (Eng AudioBuffer : Type).
Variable underlying_recognize : AudioBuffer -> method Eng SpeechEvent.
Variable filler_words : list string.

Definition recognize (buffer : AudioBuffer) : method Eng SpeechEvent :=
  event <- underlying_recognize buffer ;;
  if nonempty (alternatives event) then
    alt0 <- (fun s => (getitem (alternatives event) 0, s)) ;;
    let original_text := text alt0 in
    let cleaned_text := remove_fillers filler_words original_text in
    ret (new_event event alt0 cleaned_text)
  else ret event.

End LegacyRecognize.

Arguments stream_anext {St Frame Value}.
Arguments recognize {Eng AudioBuffer}.

End Legacy.

(** ** The mocks of [test_all_scenarios.py] *)

Module Scenarios.

Module MockRecognizeStream.

Record t : Type := mk {
  transcripts : list string;
  index : nat
}.

Definition anext : method t SpeechEvent :=
  fun self =>
    if (List.length (transcripts self) <=? index self)%nat
    then (Raise StopAsyncIteration, self)
    else
      match getitem (transcripts self) (index self) with
      | Raise e => (Raise e, self)
      | Return text =>
          (Return (transcript FINAL_TRANSCRIPT text),
           {| transcripts := transcripts self; index := index self + 1 |})
      end.

Definition aclose : method t unit := ret tt.

Definition stream : Stream t unit unit :=
  {| s_anext := Some anext;
     s_push_frame := None;
     s_flush := None;
     s_aclose := Some aclose |}.

End MockRecognizeStream.

Module MockSTT.

Record t : Type := mk {
  transcripts : list string;
  current_index : nat
}.

(** [_recognize_impl]: the next transcript, or ["default response"] once
    the list is used up. *)
Definition recognize_impl (buffer language conn_options : unit) : method t SpeechEvent :=
  fun self =>
    if (current_index self <? List.length (transcripts self))%nat then
      match getitem (transcripts self) (current_index self) with
      | Raise e => (Raise e, self)
      | Return text =>
          (Return (transcript FINAL_TRANSCRIPT text),
           {| transcripts := transcripts self; current_index := current_index self + 1 |})
      end
    else (Return (transcript FINAL_TRANSCRIPT "default response"), self).

(** [stream]: a new [MockRecognizeStream] over the same transcripts. *)
Definition stream (self : t) : Stream MockRecognizeStream.t unit unit * MockRecognizeStream.t :=
  (MockRecognizeStream.stream, MockRecognizeStream.mk (transcripts self) 0).

End MockSTT.

(** The loop of the scenario tests: [n] calls of the wrapper's recognition,
    each followed by
    [actual = event.alternatives[0].text if event.alternatives else ""]. *)
Fixpoint recognize_loop (W : list string) (n : nat) (self : MockSTT.t)
  : result (list string) * MockSTT.t :=
  match n with
  | O => (Return [], self)
  | S n' =>
      match recognize_impl MockSTT.recognize_impl W tt tt tt self with
      | (Raise e, self1) => (Raise e, self1)
      | (Return event, self1) =>
          let actual :=
            match alternatives event with
            | [] => ""
            | alt0 :: _ => text alt0
            end in
          match recognize_loop W n' self1 with
          | (Return actuals, self2) => (Return (actual :: actuals), self2)
          | (Raise e, self2) => (Raise e, self2)
          end
      end
  end.

(** The body of the loop of [test_streaming]:
    [if event.alternatives: actual_outputs.append(event.alternatives[0].text)]. *)
Fixpoint actual_outputs (events : list SpeechEvent) : list string :=
  match events with
  | [] => []
  | event :: rest =>
      match alternatives event with
      | [] => actual_outputs rest
      | alt0 :: _ => text alt0 :: actual_outputs rest
      end
  end.

End Scenarios.

(** A string that its lower-casing leaves alone. *)
Definition is_lower (x : string) : bool := String.eqb (lower x) x.

(** A stream whose events are those of a list: [remaining] gives, in every
    state, the events still to come. *)
Definition list_like {St Frame Value : Type} (u : Stream St Frame Value)
    (remaining : St -> list SpeechEvent) : Prop :=
  forall s,
    match remaining s with
    | [] => underlying_anext u s = (Raise StopAsyncIteration, s)
    | e :: r => exists s1, underlying_anext u s = (Return e, s1) /\ remaining s1 = r
    end.



(** A stream that delivers the same event for ever. *)
Definition repeat_stream (event : SpeechEvent) : Stream unit unit unit :=
  {| s_anext := Some (ret event);
     s_push_frame := None;
     s_flush := None;
     s_aclose := None |}.

(** An end-of-speech marker that carries a transcript. *)
Definition marker_event : SpeechEvent :=
  {| type := END_OF_SPEECH; alternatives := [speech_data "uh bye" "en"] |}.

(** The stream that the wrapper of the scenario tests hands out. *)
Definition scenario_stream (transcripts words : list string)
  : FilteredRecognizeStream Scenarios.MockRecognizeStream.t unit unit
    * Scenarios.MockRecognizeStream.t :=
  FillerRemoverSTT_stream Scenarios.MockSTT.stream
    (FillerRemoverSTT_init (Scenarios.MockSTT.mk transcripts 0) words).

(** The events that the stream of the scenario tests has still to deliver. *)
Definition scenario_remaining (s : Scenarios.MockRecognizeStream.t) : list SpeechEvent :=
  map (transcript FINAL_TRANSCRIPT)
      (skipn (Scenarios.MockRecognizeStream.index s)
             (Scenarios.MockRecognizeStream.transcripts s)).


(** * Properties *)

(** ** Strings *)

Lemma append_nil_r (s : string) : s ++ "" = s.
Proof. induction s as [|c s IH]; simpl; [reflexivity | now rewrite IH]. Qed.

Lemma append_assoc (a b c : string) : (a ++ b) ++ c = a ++ (b ++ c).
Proof. induction a as [|x a IH]; simpl; [reflexivity | now rewrite IH]. Qed.

Lemma take_drop (s : string) : take_word s ++ drop_word s = s.
Proof.
  induction s as [|c s IH]; simpl; [reflexivity|].
  destruct (isspace c); simpl; [reflexivity | now rewrite IH].
Qed.

Lemma drop_word_length (s : string) : String.length (drop_word s) <= String.length s.
Proof.
  induction s as [|c s IH]; simpl; [lia|].
  destruct (isspace c); simpl; lia.
Qed.

Lemma drop_word_boundary (s : string) : at_boundary (drop_word s) = true.
Proof.
  induction s as [|c s IH]; simpl; [reflexivity|].
  destruct (isspace c) eqn:E; simpl; [exact E | exact IH].
Qed.

Lemma take_word_no_space (s : string) : no_space (take_word s) = true.
Proof.
  induction s as [|c s IH]; simpl; [reflexivity|].
  destruct (isspace c) eqn:E; simpl; [reflexivity | now rewrite E, IH].
Qed.

Lemma split_aux_word (s : string) :
  forall cur, split_aux cur s = emit (cur ++ take_word s) (split (drop_word s)).
Proof.
  induction s as [|c s IH]; intros cur; simpl.
  - now rewrite append_nil_r.
  - destruct (isspace c) eqn:E.
    + rewrite append_nil_r. unfold split. simpl. now rewrite E.
    + rewrite IH, append_assoc. reflexivity.
Qed.

Lemma split_cons (c : ascii) (s : string) :
  split (String c s) =
  if isspace c then split s else String c (take_word s) :: split (drop_word s).
Proof.
  unfold split at 1. simpl. destruct (isspace c); [reflexivity|].
  now rewrite split_aux_word.
Qed.

Lemma split_all_space (ws : string) : all_space ws = true -> split ws = [].
Proof.
  induction ws as [|c ws IH]; simpl; intros H; [reflexivity|].
  apply andb_true_iff in H as [Hc Hws].
  rewrite split_cons, Hc. auto.
Qed.

Lemma split_skip (ws s : string) : all_space ws = true -> split (ws ++ s) = split s.
Proof.
  induction ws as [|c ws IH]; simpl; intros H; [reflexivity|].
  apply andb_true_iff in H as [Hc Hws].
  rewrite split_cons, Hc. auto.
Qed.

Lemma take_word_app (w rest : string) :
  no_space w = true -> at_boundary rest = true -> take_word (w ++ rest) = w.
Proof.
  induction w as [|c w IH]; simpl; intros Hw Hr.
  - destruct rest as [|d rest]; simpl in *; [reflexivity | now rewrite Hr].
  - apply andb_true_iff in Hw as [Hc Hw].
    apply negb_true_iff in Hc. rewrite Hc. now rewrite IH.
Qed.

Lemma drop_word_app (w rest : string) :
  no_space w = true -> at_boundary rest = true -> drop_word (w ++ rest) = rest.
Proof.
  induction w as [|c w IH]; simpl; intros Hw Hr.
  - destruct rest as [|d rest]; simpl in *; [reflexivity | now rewrite Hr].
  - apply andb_true_iff in Hw as [Hc Hw].
    apply negb_true_iff in Hc. rewrite Hc. now apply IH.
Qed.

(** ** The tokens of a text are what [split] returns *)

Lemma Tokens_space_cons (c : ascii) (s : string) (ts : list string) :
  isspace c = true -> Tokens s ts -> Tokens (String c s) ts.
Proof.
  intros Hc H. destruct H as [ws Hws | ws w rest ts Hws Hne Hw Hr Hts].
  - apply Tokens_nil. simpl. now rewrite Hc, Hws.
  - change (Tokens (String c ws ++ w ++ rest) (w :: ts)).
    apply Tokens_cons; auto. simpl. now rewrite Hc, Hws.
Qed.

Lemma split_Tokens_bounded (n : nat) :
  forall s, String.length s <= n -> Tokens s (split s).
Proof.
  induction n as [|n IH]; intros s Hlen.
  - destruct s; simpl in Hlen; [|lia]. now apply Tokens_nil.
  - destruct s as [|c s]; [now apply Tokens_nil|].
    simpl in Hlen. rewrite split_cons. destruct (isspace c) eqn:E.
    + apply Tokens_space_cons; [exact E|]. apply IH. lia.
    + rewrite <- (take_drop s) at 1.
      change (Tokens ("" ++ String c (take_word s) ++ drop_word s)
                (String c (take_word s) :: split (drop_word s))).
      apply Tokens_cons.
      * reflexivity.
      * discriminate.
      * simpl. now rewrite E, take_word_no_space.
      * apply drop_word_boundary.
      * apply IH. pose proof (drop_word_length s). lia.
Qed.

Lemma split_Tokens (s : string) : Tokens s (split s).
Proof. apply (split_Tokens_bounded (String.length s)). lia. Qed.

Lemma Tokens_split (s : string) (ts : list string) : Tokens s ts -> ts = split s.
Proof.
  induction 1 as [ws Hws | ws w rest ts Hws Hne Hw Hr Hts IH].
  - symmetry. now apply split_all_space.
  - rewrite split_skip by exact Hws.
    destruct w as [|c w]; [congruence|].
    simpl in Hw. apply andb_true_iff in Hw as [Hc Hw].
    apply negb_true_iff in Hc.
    simpl. rewrite split_cons, Hc.
    rewrite take_word_app, drop_word_app by assumption.
    now rewrite IH.
Qed.

Lemma Tokens_words (s : string) (ts : list string) : Tokens s ts -> Forall is_word ts.
Proof.
  induction 1; constructor; auto. now split.
Qed.

Lemma split_words (s : string) : Forall is_word (split s).
Proof. exact (Tokens_words _ _ (split_Tokens s)). Qed.

Lemma join_Tokens (ts : list string) : Forall is_word ts -> Tokens (join " " ts) ts.
Proof.
  induction 1 as [|w ts [Hne Hw] Hts IH].
  - now apply Tokens_nil.
  - destruct ts as [|w2 ts].
    + simpl. rewrite <- (append_nil_r w) at 1.
      change (Tokens ("" ++ w ++ "") [w]).
      apply Tokens_cons; auto using Tokens_nil.
    + change (Tokens ("" ++ w ++ String " " (join " " (w2 :: ts))) (w :: w2 :: ts)).
      apply Tokens_cons; auto.
      apply Tokens_space_cons; [reflexivity | exact IH].
Qed.

Lemma split_join (ts : list string) : Forall is_word ts -> split (join " " ts) = ts.
Proof.
  intros H. symmetry. apply Tokens_split. now apply join_Tokens.
Qed.

Lemma Forall_filter {A : Type} (P : A -> Prop) (f : A -> bool) (l : list A) :
  Forall P l -> Forall P (filter f l).
Proof.
  induction 1 as [|x l Hx Hl IH]; simpl; [constructor|].
  destruct (f x); [constructor|]; assumption.
Qed.

Lemma filter_filter {A : Type} (f : A -> bool) (l : list A) :
  filter f (filter f l) = filter f l.
Proof.
  induction l as [|x l IH]; simpl; [reflexivity|].
  destruct (f x) eqn:E; simpl; [rewrite E|]; now rewrite ?IH.
Qed.

Lemma remove_fillers_kept (W : list string) (T : string) :
  remove_fillers W T = join " " (kept W (split T)).
Proof. reflexivity. Qed.

(** ** Trimming a joined list of words *)

Lemma rstrip_start (c : ascii) (s : string) :
  isspace c = false -> truthy (rstrip (String c s)) = true.
Proof.
  intros Hc. simpl. destruct (rstrip s); [now rewrite Hc | reflexivity].
Qed.

Lemma join_start (w : string) (ts : list string) :
  is_word w -> exists c s, isspace c = false /\ join " " (w :: ts) = String c s.
Proof.
  intros [Hne Hw]. destruct w as [|c w]; [congruence|].
  simpl in Hw. apply andb_true_iff in Hw as [Hc _]. apply negb_true_iff in Hc.
  exists c. destruct ts as [|w2 ts]; simpl; eauto.
Qed.

Lemma strip_join_truthy (ts : list string) :
  Forall is_word ts -> truthy (strip (join " " ts)) = nonempty ts.
Proof.
  intros H. destruct H as [|w ts Hw Hts]; [reflexivity|].
  destruct (join_start w ts Hw) as (c & s & Hc & E).
  rewrite E. unfold strip. simpl lstrip. rewrite Hc.
  now rewrite rstrip_start.
Qed.

Lemma strip_remove_fillers (W : list string) (T : string) :
  truthy (strip (remove_fillers W T)) = nonempty (kept W (split T)).
Proof.
  rewrite remove_fillers_kept. apply strip_join_truthy.
  apply Forall_filter, split_words.
Qed.

Lemma join_empty (ts : list string) :
  Forall is_word ts -> join " " ts = "" -> ts = [].
Proof.
  intros H E. destruct H as [|w ts Hw Hts]; [reflexivity|].
  destruct (join_start w ts Hw) as (c & s & _ & E'). congruence.
Qed.

(** ** Splitting and joining is white-space normalisation *)

Lemma rstrip_truthy (s : string) : truthy (rstrip s) = negb (all_space s).
Proof.
  induction s as [|c s IH]; simpl; [reflexivity|].
  destruct (rstrip s); simpl in *.
  - apply (f_equal negb) in IH. rewrite negb_involutive in IH. simpl in IH.
    rewrite <- IH, andb_true_r. now destruct (isspace c).
  - apply (f_equal negb) in IH. rewrite negb_involutive in IH. simpl in IH.
    rewrite <- IH, andb_false_r. reflexivity.
Qed.

Lemma rstrip_cons (c : ascii) (s : string) :
  rstrip (String c s) = if all_space (String c s) then "" else String c (rstrip s).
Proof.
  pose proof (rstrip_truthy s) as H. simpl.
  destruct (rstrip s); simpl in H.
  - apply (f_equal negb) in H. rewrite negb_involutive in H. simpl in H.
    rewrite <- H, andb_true_r. now destruct (isspace c).
  - apply (f_equal negb) in H. rewrite negb_involutive in H. simpl in H.
    rewrite <- H, andb_false_r. reflexivity.
Qed.

Lemma next_is_space_rstrip (s : string) :
  all_space s = false -> next_is_space (rstrip s) = next_is_space s.
Proof.
  destruct s as [|c s]; [discriminate|]. intros H.
  now rewrite rstrip_cons, H.
Qed.

Lemma split_not_nil (s : string) : all_space s = false -> split s <> [].
Proof.
  induction s as [|c s IH]; simpl; [discriminate|].
  rewrite split_cons. destruct (isspace c); simpl; [exact IH | discriminate].
Qed.

Lemma join_cons (sep w : string) (l : list string) :
  l <> [] -> join sep (w :: l) = w ++ sep ++ join sep l.
Proof. destruct l; [congruence | reflexivity]. Qed.

Lemma emit_not_empty (cur : string) (l : list string) : cur <> "" -> emit cur l = cur :: l.
Proof. destruct cur; [congruence | reflexivity]. Qed.

Lemma append_not_empty (a : string) (c : ascii) : a ++ String c "" <> "".
Proof. destruct a; discriminate. Qed.

Lemma join_split_aux (s : string) :
  (forall cur, cur <> "" ->
     join " " (split_aux cur s) = cur ++ collapse (rstrip s)) /\
  (all_space s = false ->
     collapse (rstrip s) = (if next_is_space s then " " else "") ++ join " " (split s)).
Proof.
  induction s as [|c s [IH1 IH2]].
  - split; [|discriminate]. intros cur Hcur. simpl.
    now rewrite emit_not_empty, append_nil_r.
  - assert (Hsp : isspace c = true -> all_space s = false ->
                  collapse (String c (rstrip s)) = String " " (join " " (split s))).
    { intros Hc Hs. simpl. rewrite Hc, next_is_space_rstrip, IH2 by exact Hs.
      now destruct (next_is_space s). }
    split.
    + intros cur Hcur. rewrite rstrip_cons. simpl.
      destruct (isspace c) eqn:Hc; simpl.
      * rewrite emit_not_empty by exact Hcur.
        destruct (all_space s) eqn:Hs.
        -- fold (split s). rewrite split_all_space by exact Hs.
           simpl. now rewrite append_nil_r.
        -- fold (split s). rewrite join_cons by now apply split_not_nil.
           rewrite Hsp by auto. reflexivity.
      * rewrite IH1 by apply append_not_empty.
        rewrite Hc, append_assoc. reflexivity.
    + intros Hall. rewrite rstrip_cons, Hall.
      simpl in Hall. simpl next_is_space.
      destruct (isspace c) eqn:Hc; simpl in Hall.
      * rewrite Hsp by auto. rewrite split_cons, Hc. reflexivity.
      * simpl. rewrite Hc. unfold split. simpl. rewrite Hc.
        rewrite IH1 by discriminate. reflexivity.
Qed.

Lemma split_lstrip (s : string) : split (lstrip s) = split s.
Proof.
  induction s as [|c s IH]; simpl; [reflexivity|].
  destruct (isspace c) eqn:Hc; [|reflexivity].
  now rewrite (split_cons c s), Hc.
Qed.

Lemma lstrip_head (s : string) (d : ascii) (t : string) :
  lstrip s = String d t -> isspace d = false.
Proof.
  induction s as [|c s IH]; simpl; [discriminate|].
  destruct (isspace c) eqn:Hc; [exact IH|]. intros E. now inversion E; subst.
Qed.

Lemma join_split_normalize (s : string) : join " " (split s) = normalize_ws s.
Proof.
  unfold normalize_ws, strip. rewrite <- (split_lstrip s).
  destruct (lstrip s) as [|d t] eqn:E; [reflexivity|].
  pose proof (lstrip_head _ _ _ E) as Hd.
  destruct (join_split_aux (String d t)) as [_ H].
  rewrite H by (simpl; now rewrite Hd).
  simpl. now rewrite Hd.
Qed.

(** ** One call of [__anext__] *)

Section AnextFacts.

Context {St Frame Value : Type}.
Variable u : Stream St Frame Value.
Variable W : list string.

(** The body of [__anext__] in terms of [filler_only] and [forwarded]. *)
Lemma anext_step (fuel : nat) (s : St) :
  anext u W (S fuel) s =
  match underlying_anext u s with
  | (Raise e, s1) => Some (Raise e, s1)
  | (Return event, s1) =>
      if filler_only W event then anext u W fuel s1
      else Some (Return (forwarded W event), s1)
  end.
Proof.
  simpl. destruct (underlying_anext u s) as [[event|e] s1]; [|reflexivity].
  unfold filler_only, forwarded.
  destruct (is_transcript (type event)); [|reflexivity].
  destruct (alternatives event) as [|alt0 rest]; [reflexivity|].
  simpl. now destruct (truthy (strip (remove_fillers W (text alt0)))).
Qed.

Lemma anext_raise (fuel : nat) (s s1 : St) (e : exn) :
  underlying_anext u s = (Raise e, s1) ->
  anext u W (S fuel) s = Some (Raise e, s1).
Proof. intros H. now rewrite anext_step, H. Qed.

Lemma anext_forward (fuel : nat) (s s1 : St) (event : SpeechEvent) :
  underlying_anext u s = (Return event, s1) ->
  filler_only W event = false ->
  anext u W (S fuel) s = Some (Return (forwarded W event), s1).
Proof. intros H F. now rewrite anext_step, H, F. Qed.

Lemma anext_skip (fuel : nat) (s s1 : St) (event : SpeechEvent) :
  underlying_anext u s = (Return event, s1) ->
  filler_only W event = true ->
  anext u W (S fuel) s = anext u W fuel s1.
Proof. intros H F. now rewrite anext_step, H, F. Qed.

(** More fuel does not change a result. *)
Lemma anext_mono (fuel : nat) :
  forall s r, anext u W fuel s = Some r -> anext u W (S fuel) s = Some r.
Proof.
  induction fuel as [|fuel IH]; intros s r H; [discriminate|].
  rewrite anext_step in H. rewrite anext_step.
  destruct (underlying_anext u s) as [[event|e] s1]; [|exact H].
  destruct (filler_only W event); [now apply IH | exact H].
Qed.


End AnextFacts.

(** ** The mock stream *)

Lemma skipn_cons_nth {A : Type} (i : nat) :
  forall (l : list A) (e : A) (r : list A),
    skipn i l = e :: r -> nth_error l i = Some e /\ skipn (S i) l = r.
Proof.
  induction i as [|i IH]; intros l e r H.
  - simpl in H. subst l. now split.
  - destruct l as [|x l]; [discriminate|]. simpl in H. now apply IH in H.
Qed.

Lemma skipn_nil_length {A : Type} (i : nat) :
  forall (l : list A), skipn i l = [] -> List.length l <= i.
Proof.
  induction i as [|i IH]; intros l H.
  - simpl in H. subst l. simpl. lia.
  - destruct l as [|x l]; simpl; [lia|]. simpl in H. apply IH in H. lia.
Qed.

Lemma mock_anext_end (events : list SpeechEvent) (i : nat) :
  skipn i events = [] ->
  underlying_anext mock_stream (mkMock events i) =
  (Raise StopAsyncIteration, mkMock events i).
Proof.
  intros H. apply skipn_nil_length in H.
  unfold underlying_anext, mock_stream, mock_anext. simpl.
  apply Nat.leb_le in H. now rewrite H.
Qed.

Lemma mock_anext_event (events : list SpeechEvent) (i : nat) (e : SpeechEvent)
    (r : list SpeechEvent) :
  skipn i events = e :: r ->
  underlying_anext mock_stream (mkMock events i) = (Return e, mkMock events (S i)) /\
  skipn (S i) events = r.
Proof.
  intros H. apply skipn_cons_nth in H as [Hn Hr]. split; [|exact Hr].
  unfold underlying_anext, mock_stream, mock_anext, getitem. simpl.
  assert (Hlt : i < List.length events) by (apply nth_error_Some; congruence).
  apply Nat.leb_gt in Hlt. now rewrite Hlt, Hn, Nat.add_1_r.
Qed.

(** On the mock, [__anext__] returns when it may call itself once more than
    there are events left. *)
Lemma anext_mock_returns (W : list string) (events : list SpeechEvent) (rest : list SpeechEvent) :
  forall i fuel,
    skipn i events = rest -> List.length rest < fuel ->
    exists r, anext mock_stream W fuel (mkMock events i) = Some r.
Proof.
  induction rest as [|e rest IH]; intros i fuel Hs Hf.
  - destruct fuel as [|fuel]; [simpl in Hf; lia|].
    rewrite (anext_raise _ _ _ _ _ _ (mock_anext_end _ _ Hs)). eauto.
  - destruct fuel as [|fuel]; [simpl in Hf; lia|].
    destruct (mock_anext_event _ _ _ _ Hs) as [Hu Hr].
    rewrite anext_step, Hu. destruct (filler_only W e); [|eauto].
    apply (IH (S i) fuel Hr). simpl in Hf. lia.
Qed.

Lemma survivors_cons (W : list string) (e : SpeechEvent) (events : list SpeechEvent) :
  survivors W (e :: events) =
  if filler_only W e then survivors W events else forwarded W e :: survivors W events.
Proof. unfold survivors. simpl. now destruct (filler_only W e). Qed.

Lemma async_for_mock (W : list string) (events : list SpeechEvent) (rest : list SpeechEvent) :
  forall i n fuel,
    skipn i events = rest -> List.length rest < n -> List.length rest < fuel ->
    async_for mock_stream W n fuel (mkMock events i) =
    Some (survivors W rest, None, mkMock events (i + List.length rest)).
Proof.
  induction rest as [|e rest IH]; intros i n fuel Hs Hn Hf.
  - destruct n as [|n]; [simpl in Hn; lia|].
    destruct fuel as [|fuel]; [simpl in Hf; lia|].
    cbn [async_for]. rewrite (anext_raise _ _ _ _ _ _ (mock_anext_end _ _ Hs)).
    simpl. now rewrite Nat.add_0_r.
  - destruct n as [|n]; [simpl in Hn; lia|].
    destruct fuel as [|fuel]; [simpl in Hf; lia|].
    simpl in Hn, Hf.
    destruct (mock_anext_event _ _ _ _ Hs) as [Hu Hr].
    replace (i + List.length (e :: rest)) with (S i + List.length rest) by (simpl; lia).
    rewrite survivors_cons.
    destruct (filler_only W e) eqn:F.
    + destruct (anext_mock_returns W events rest (S i) fuel Hr) as [r Hret]; [lia|].
      rewrite <- (IH (S i) (S n) (S fuel) Hr) by lia.
      cbn [async_for].
      rewrite (anext_skip _ _ _ _ _ _ Hu F), Hret.
      now rewrite (anext_mono _ _ _ _ _ Hret).
    + cbn [async_for]. rewrite (anext_forward _ _ _ _ _ _ Hu F).
      rewrite (IH (S i) n (S fuel) Hr) by lia. reflexivity.
Qed.

Lemma survivors_length (W : list string) (events : list SpeechEvent) :
  List.length (survivors W events) + List.length (filter (filler_only W) events)
  = List.length events.
Proof.
  unfold survivors. rewrite length_map.
  induction events as [|e events IH]; simpl; [reflexivity|].
  destruct (filler_only W e); simpl; lia.
Qed.

(** ** The filter function *)

Lemma kept_all_fillers (W : list string) (ts : list string) :
  forallb (is_filler W) ts = true -> kept W ts = [].
Proof.
  induction ts as [|w ts IH]; simpl; [reflexivity|].
  intros H. apply andb_true_iff in H as [Hw Hts]. rewrite Hw. simpl. auto.
Qed.

Lemma kept_no_fillers (W : list string) (ts : list string) :
  existsb (is_filler W) ts = false -> kept W ts = ts.
Proof.
  induction ts as [|w ts IH]; simpl; [reflexivity|].
  intros H. apply orb_false_iff in H as [Hw Hts]. rewrite Hw. simpl.
  now rewrite IH.
Qed.

Lemma filtered_empty (W : list string) (T : string) :
  truthy (strip (remove_fillers W T)) = false -> remove_fillers W T = "".
Proof.
  rewrite strip_remove_fillers, remove_fillers_kept.
  destruct (kept W (split T)); [reflexivity | discriminate].
Qed.

Lemma normalize_join (ts : list string) :
  Forall is_word ts -> normalize_ws (join " " ts) = join " " ts.
Proof.
  intros H. rewrite <- join_split_normalize. now rewrite split_join.
Qed.

(** The stored word list is lower-cased, so a token is a filler when it
    equals a configured word up to case. *)
Lemma is_filler_init (words : list string) (w : string) :
  is_filler (init_filler_words words) w = true <->
  exists x, In x words /\ lower x = lower w.
Proof.
  unfold is_filler, contains, init_filler_words. rewrite existsb_exists. split.
  - intros (y & Hy & E). apply in_map_iff in Hy as (x & Hx & Hin).
    apply String.eqb_eq in E. exists x. split; [exact Hin | congruence].
  - intros (x & Hin & E). exists (lower x). split; [now apply in_map|].
    apply String.eqb_eq. congruence.
Qed.

(** C1: for every text [T] and every stored word list [W], the tokens of [T]
    exist and are unique, and the filter returns the tokens whose lower-cased
    form is not in [W], in their order, joined by single spaces; the result
    is the empty string when every token is a filler and when [T] is empty.
    The filter is a total function, so it always returns and returns one
    value. *)
Theorem remove_fillers_tokens (W : list string) (T : string) :
  (exists ts, Tokens T ts) /\
  (forall ts ts', Tokens T ts -> Tokens T ts' -> ts = ts') /\
  (forall ts, Tokens T ts ->
     remove_fillers W T = join " " (kept W ts) /\
     (forallb (is_filler W) ts = true -> remove_fillers W T = "")) /\
  remove_fillers W "" = "".
Proof.
  split; [exists (split T); apply split_Tokens|].
  split.
  { intros ts ts' H H'. apply Tokens_split in H, H'. congruence. }
  split; [|reflexivity].
  intros ts H. apply Tokens_split in H. subst ts.
  split; [reflexivity|].
  intros Hall. rewrite remove_fillers_kept, kept_all_fillers by exact Hall.
  reflexivity.
Qed.

Example scenario1 : remove_fillers ["uh"] "uh hello" = "hello".
Proof. reflexivity. Qed.

Example scenario2 : remove_fillers ["umm"] "umm okay stop" = "okay stop".
Proof. reflexivity. Qed.

Example scenario3 : remove_fillers ["uh"] "uh uh uh" = "".
Proof. reflexivity. Qed.

Example scenario4 : remove_fillers ["uh"] "  uh  hello  " = "hello".
Proof. reflexivity. Qed.

Example scenario_case : remove_fillers (init_filler_words ["UH"]) "Uh Hello" = "Hello".
Proof. reflexivity. Qed.

(** C7: filtering a filtered text changes nothing. *)
Theorem remove_fillers_idempotent (W : list string) (T : string) :
  remove_fillers W (remove_fillers W T) = remove_fillers W T.
Proof.
  rewrite (remove_fillers_kept W T).
  rewrite remove_fillers_kept, split_join.
  - unfold kept. now rewrite filter_filter.
  - apply Forall_filter, split_words.
Qed.

(** ** The streaming adapter over a finite sequence *)

(** C2: over a finite sequence of N events, M of them transcript events whose
    filtered first-alternative text is empty after trimming, the loop over the
    adapter ends normally with N - M events: the events that are not
    filler-only, each as forwarded, in their order; an event that is not a
    transcript is never filler-only and is forwarded as it is. *)
Theorem stream_output_sequence (W : list string) (events : list SpeechEvent) (n fuel : nat) :
  List.length events < n ->
  List.length events < fuel ->
  exists out,
    async_for mock_stream W n fuel (mock_init events) =
      Some (out, None, mkMock events (List.length events)) /\
    out = map (forwarded W) (filter (fun e => negb (filler_only W e)) events) /\
    List.length out =
      List.length events - List.length (filter (filler_only W) events) /\
    (forall e, is_transcript (type e) = false ->
               filler_only W e = false /\ forwarded W e = e).
Proof.
  intros Hn Hf. exists (survivors W events). split; [|split; [|split]].
  - apply (async_for_mock W events events 0 n fuel); auto.
  - reflexivity.
  - pose proof (survivors_length W events). lia.
  - intros e He. unfold filler_only, forwarded. now rewrite He.
Qed.

Lemma stream_output_sequence_test :
  exists out,
    async_for mock_stream ["uh"; "umm"] 5 5 (mock_init test_events) =
      Some (out, None, mkMock test_events 4) /\
    out = [transcript INTERIM_TRANSCRIPT "hello";
           transcript FINAL_TRANSCRIPT "hello world"] /\
    List.length out = 2.
Proof.
  destruct (stream_output_sequence ["uh"; "umm"] test_events 5 5)
    as (out & H1 & H2 & H3 & _).
  - simpl. lia.
  - simpl. lia.
  - exists out. split; [exact H1|]. split; [exact H2 | exact H3].
Defined.

(** ** The batch adapter *)

Section BatchFacts.

Context {Eng AudioBuffer Language APIConnectOptions : Type}.
Variable recognize : AudioBuffer -> Language -> APIConnectOptions -> method Eng SpeechEvent.
Variable W : list string.

Lemma recognize_impl_step (b : AudioBuffer) (l : Language) (o : APIConnectOptions)
    (s : Eng) :
  recognize_impl recognize W b l o s =
  match recognize b l o s with
  | (Raise e, s1) => (Raise e, s1)
  | (Return event, s1) =>
      match alternatives event with
      | [] => (Return event, s1)
      | alt0 :: _ => (Return (new_event event alt0 (remove_fillers W (text alt0))), s1)
      end
  end.
Proof.
  unfold recognize_impl, bind.
  destruct (recognize b l o s) as [[event|e] s1]; [|reflexivity].
  now destruct (alternatives event).
Qed.

End BatchFacts.

(** C3: whenever the engine's one-shot call returns an event, the batch
    operation returns one event, of the same kind; with at least one
    alternative its text is the filtered text, and it is the empty string
    when the filtered text is empty after trimming, the case in which the
    stream would have skipped the event. *)
Theorem recognize_impl_returns_event {Eng AudioBuffer Language APIConnectOptions : Type}
    (recognize : AudioBuffer -> Language -> APIConnectOptions -> method Eng SpeechEvent)
    (W : list string) (b : AudioBuffer) (l : Language) (o : APIConnectOptions)
    (s s1 : Eng) (event : SpeechEvent) :
  recognize b l o s = (Return event, s1) ->
  exists out,
    recognize_impl recognize W b l o s = (Return out, s1) /\
    type out = type event /\
    (forall alt0 rest, alternatives event = alt0 :: rest ->
       exists a,
         alternatives out = [a] /\
         text a = remove_fillers W (text alt0) /\
         (truthy (strip (remove_fillers W (text alt0))) = false -> text a = "")).
Proof.
  intros H. rewrite recognize_impl_step, H.
  destruct (alternatives event) as [|alt0 rest] eqn:E.
  - exists event. repeat split. intros ? ? ?. discriminate.
  - eexists. split; [reflexivity|]. split; [reflexivity|].
    intros alt0' rest' E'. inversion E'; subst.
    eexists. split; [reflexivity|]. split; [reflexivity|].
    simpl. apply filtered_empty.
Qed.

Lemma recognize_impl_returns_event_test :
  exists out,
    recognize_impl (mock_recognize (transcript FINAL_TRANSCRIPT "uh")) ["uh"] tt tt tt tt
      = (Return out, tt) /\
    out = transcript FINAL_TRANSCRIPT "".
Proof.
  destruct (recognize_impl_returns_event
              (mock_recognize (transcript FINAL_TRANSCRIPT "uh")) ["uh"] tt tt tt tt tt
              (transcript FINAL_TRANSCRIPT "uh") eq_refl)
    as (out & H1 & _).
  exists out. split; [exact H1|].
  vm_compute in H1. now inversion H1.
Defined.

(** C4: a transcript event without alternatives is handed on as it is by the
    stream adapter and by the batch adapter; neither call raises, so the empty
    list is never indexed. *)
Theorem no_alternatives_passthrough
    {St Frame Value Eng AudioBuffer Language APIConnectOptions : Type}
    (event : SpeechEvent) :
  is_transcript (type event) = true ->
  alternatives event = [] ->
  (forall (u : Stream St Frame Value) (W : list string) (fuel : nat) (s s1 : St),
      underlying_anext u s = (Return event, s1) ->
      anext u W (S fuel) s = Some (Return event, s1)) /\
  (forall (recognize : AudioBuffer -> Language -> APIConnectOptions -> method Eng SpeechEvent)
          (W : list string) (b : AudioBuffer) (l : Language) (o : APIConnectOptions)
          (s s1 : Eng),
      recognize b l o s = (Return event, s1) ->
      recognize_impl recognize W b l o s = (Return event, s1)).
Proof.
  intros Ht Ha. split.
  - intros u W fuel s s1 H. simpl. now rewrite H, Ht, Ha.
  - intros recognize W b l o s s1 H. now rewrite recognize_impl_step, H, Ha.
Qed.

Lemma no_alternatives_passthrough_test :
  anext mock_stream ["uh"] 1 (mock_init [mkSpeechEvent FINAL_TRANSCRIPT []]) =
    Some (Return (mkSpeechEvent FINAL_TRANSCRIPT []),
          mkMock [mkSpeechEvent FINAL_TRANSCRIPT []] 1) /\
  recognize_impl (mock_recognize (mkSpeechEvent INTERIM_TRANSCRIPT [])) ["uh"] tt tt tt tt =
    (Return (mkSpeechEvent INTERIM_TRANSCRIPT []), tt).
Proof.
  split.
  - apply (proj1 (@no_alternatives_passthrough MockRecognizeStream unit unit
                    unit unit unit unit
                    (mkSpeechEvent FINAL_TRANSCRIPT []) eq_refl eq_refl)).
    reflexivity.
  - apply (proj2 (@no_alternatives_passthrough MockRecognizeStream unit unit
                    unit unit unit unit
                    (mkSpeechEvent INTERIM_TRANSCRIPT []) eq_refl eq_refl)).
    reflexivity.
Defined.

(** ** Lifecycle operations *)

Section LifecycleFacts.

Context {St Frame Value : Type}.
Variable u : Stream St Frame Value.
Variable PyNone : Value.

Lemma push_frame_forwarded (m : Frame -> method St Value) (frame : Frame) (s : St) :
  s_push_frame u = Some m -> push_frame u frame s = m frame s.
Proof. intros H. unfold push_frame. now rewrite H. Qed.

Lemma flush_forwarded (m : method St Value) (s : St) :
  s_flush u = Some m -> flush u PyNone s = m s.
Proof. intros H. unfold flush. now rewrite H. Qed.

Lemma flush_unsupported (s : St) :
  s_flush u = None -> flush u PyNone s = (Return PyNone, s).
Proof. intros H. unfold flush. now rewrite H. Qed.



End LifecycleFacts.




(** C6 at the mock stream of the tests, which has neither [push_frame] nor
    [flush]: [flush] returns [None] and leaves the stream alone, while
    [push_frame] raises [AttributeError]. *)
Theorem push_frame_unsupported_raises :
  flush mock_stream tt (mock_init test_events) = (Return tt, mock_init test_events) /\
  push_frame mock_stream tt (mock_init test_events) =
    (Raise (AttributeError "push_frame"), mock_init test_events).
Proof. split; reflexivity. Qed.

(** ** Rewritten events *)

(** C8: a transcript event with at least one alternative, when the stream
    forwards it and when the batch operation returns it, keeps its kind, and
    its first alternative keeps language, start time, end time and
    confidence; the text becomes the filtered text. *)
Theorem rewritten_event_keeps_metadata
    {St Frame Value Eng AudioBuffer Language APIConnectOptions : Type}
    (W : list string) (event : SpeechEvent) (alt0 : SpeechData) (rest : list SpeechData) :
  is_transcript (type event) = true ->
  alternatives event = alt0 :: rest ->
  (forall (u : Stream St Frame Value) (fuel : nat) (s s1 : St),
      underlying_anext u s = (Return event, s1) ->
      filler_only W event = false ->
      exists out a,
        anext u W (S fuel) s = Some (Return out, s1) /\
        type out = type event /\
        nth_error (alternatives out) 0 = Some a /\
        same_but_text a alt0 (remove_fillers W (text alt0))) /\
  (forall (recognize : AudioBuffer -> Language -> APIConnectOptions -> method Eng SpeechEvent)
          (b : AudioBuffer) (l : Language) (o : APIConnectOptions) (s s1 : Eng),
      recognize b l o s = (Return event, s1) ->
      exists out a,
        recognize_impl recognize W b l o s = (Return out, s1) /\
        type out = type event /\
        nth_error (alternatives out) 0 = Some a /\
        same_but_text a alt0 (remove_fillers W (text alt0))).
Proof.
  intros Ht Ha. split.
  - intros u fuel s s1 Hu Hf.
    rewrite (anext_forward u W fuel s s1 event Hu Hf).
    unfold forwarded. rewrite Ht, Ha.
    do 2 eexists. split; [reflexivity|]. split; [reflexivity|].
    split; [reflexivity|]. repeat split.
  - intros recognize b l o s s1 H.
    rewrite recognize_impl_step, H, Ha.
    do 2 eexists. split; [reflexivity|]. split; [reflexivity|].
    split; [reflexivity|]. repeat split.
Qed.

(** C9: such an event comes out with exactly one alternative, whatever the
    number of alternatives it came in with and whether or not the filter
    changed the text. *)
Theorem rewritten_event_one_alternative
    {St Frame Value Eng AudioBuffer Language APIConnectOptions : Type}
    (W : list string) (event : SpeechEvent) (alt0 : SpeechData) (rest : list SpeechData) :
  is_transcript (type event) = true ->
  alternatives event = alt0 :: rest ->
  (forall (u : Stream St Frame Value) (fuel : nat) (s s1 : St),
      underlying_anext u s = (Return event, s1) ->
      filler_only W event = false ->
      exists out,
        anext u W (S fuel) s = Some (Return out, s1) /\
        List.length (alternatives out) = 1) /\
  (forall (recognize : AudioBuffer -> Language -> APIConnectOptions -> method Eng SpeechEvent)
          (b : AudioBuffer) (l : Language) (o : APIConnectOptions) (s s1 : Eng),
      recognize b l o s = (Return event, s1) ->
      exists out,
        recognize_impl recognize W b l o s = (Return out, s1) /\
        List.length (alternatives out) = 1).
Proof.
  intros Ht Ha. split.
  - intros u fuel s s1 Hu Hf.
    rewrite (anext_forward u W fuel s s1 event Hu Hf).
    unfold forwarded. rewrite Ht, Ha. eexists. split; reflexivity.
  - intros recognize b l o s s1 H.
    rewrite recognize_impl_step, H, Ha. eexists. split; reflexivity.
Qed.

Lemma rewritten_event_keeps_metadata_test :
  (exists out a,
     anext mock_stream ["uh"; "umm"] 1 (mock_init test_events) =
       Some (Return out, mkMock test_events 1) /\
     type out = INTERIM_TRANSCRIPT /\
     nth_error (alternatives out) 0 = Some a /\
     same_but_text a (speech_data "uh hello" "en") "hello") /\
  (exists out a,
     recognize_impl (mock_recognize (transcript FINAL_TRANSCRIPT "uh hello world"))
       ["uh"; "umm"] tt tt tt tt = (Return out, tt) /\
     type out = FINAL_TRANSCRIPT /\
     nth_error (alternatives out) 0 = Some a /\
     same_but_text a (speech_data "uh hello world" "en") "hello world").
Proof.
  split.
  - apply (proj1 (@rewritten_event_keeps_metadata MockRecognizeStream unit unit
                    unit unit unit unit ["uh"; "umm"]
                    (transcript INTERIM_TRANSCRIPT "uh hello")
                    (speech_data "uh hello" "en") [] eq_refl eq_refl));
      reflexivity.
  - apply (proj2 (@rewritten_event_keeps_metadata MockRecognizeStream unit unit
                    unit unit unit unit ["uh"; "umm"]
                    (transcript FINAL_TRANSCRIPT "uh hello world")
                    (speech_data "uh hello world" "en") [] eq_refl eq_refl)
                 (mock_recognize (transcript FINAL_TRANSCRIPT "uh hello world"))
                 tt tt tt tt tt).
    reflexivity.
Defined.

Lemma rewritten_event_one_alternative_test :
  (exists out,
     anext mock_stream ["uh"] 1 (mock_init [two_alternatives]) =
       Some (Return out, mkMock [two_alternatives] 1) /\
     List.length (alternatives out) = 1) /\
  (exists out,
     recognize_impl (mock_recognize two_alternatives) ["uh"] tt tt tt tt = (Return out, tt) /\
     List.length (alternatives out) = 1).
Proof.
  split.
  - apply (proj1 (@rewritten_event_one_alternative MockRecognizeStream unit unit
                    unit unit unit unit ["uh"] two_alternatives
                    (speech_data "hello world" "en")
                    [speech_data "yellow world" "en"] eq_refl eq_refl));
      reflexivity.
  - apply (proj2 (@rewritten_event_one_alternative MockRecognizeStream unit unit
                    unit unit unit unit ["uh"] two_alternatives
                    (speech_data "hello world" "en")
                    [speech_data "yellow world" "en"] eq_refl eq_refl)
                 (mock_recognize two_alternatives) tt tt tt tt tt).
    reflexivity.
Defined.

(** C10: the text of a forwarded transcript event is always in
    white-space-normal form, and when no token of the original text is a
    configured filler it is the white-space-normal form of the original
    text. *)
Theorem forwarded_text_normalized {St Frame Value : Type}
    (u : Stream St Frame Value) (W : list string) (fuel : nat) (s s1 : St)
    (event : SpeechEvent) (alt0 : SpeechData) (rest : list SpeechData) :
  underlying_anext u s = (Return event, s1) ->
  is_transcript (type event) = true ->
  alternatives event = alt0 :: rest ->
  filler_only W event = false ->
  exists a,
    anext u W (S fuel) s = Some (Return (mkSpeechEvent (type event) [a]), s1) /\
    normalize_ws (text a) = text a /\
    (existsb (is_filler W) (split (text alt0)) = false ->
     text a = normalize_ws (text alt0)).
Proof.
  intros Hu Ht Ha Hf.
  rewrite (anext_forward u W fuel s s1 event Hu Hf).
  unfold forwarded. rewrite Ht, Ha.
  eexists. split; [reflexivity|]. simpl. split.
  - rewrite remove_fillers_kept. apply normalize_join.
    apply Forall_filter, split_words.
  - intros Hno. rewrite remove_fillers_kept, kept_no_fillers by exact Hno.
    apply join_split_normalize.
Qed.

Lemma forwarded_text_normalized_test :
  exists a,
    anext mock_stream ["uh"] 1 (mock_init [spaced_event]) =
      Some (Return (mkSpeechEvent FINAL_TRANSCRIPT [a]), mkMock [spaced_event] 1) /\
    normalize_ws (text a) = text a /\
    (existsb (is_filler ["uh"]) (split "  hello   world ") = false ->
     text a = normalize_ws "  hello   world ").
Proof.
  apply (forwarded_text_normalized mock_stream ["uh"] 0
           (mock_init [spaced_event]) (mkMock [spaced_event] 1)
           spaced_event (speech_data "  hello   world " "en") []);
    reflexivity.
Defined.

Example spaced_event_altered :
  existsb (is_filler ["uh"]) (split "  hello   world ") = false /\
  anext mock_stream ["uh"] 1 (mock_init [spaced_event]) =
    Some (Return (transcript FINAL_TRANSCRIPT "hello world"), mkMock [spaced_event] 1) /\
  normalize_ws "  hello   world " = "hello world".
Proof. repeat split. Qed.

(** * Further properties of the code *)

(** ** More on the filter function *)

Lemma split_remove_fillers (W : list string) (T : string) :
  split (remove_fillers W T) = kept W (split T).
Proof.
  rewrite remove_fillers_kept. apply split_join.
  apply Forall_filter, split_words.
Qed.

Lemma remove_fillers_again (W : list string) (T : string) :
  remove_fillers W (remove_fillers W T) = remove_fillers W T.
Proof.
  rewrite (remove_fillers_kept W (remove_fillers W T)), split_remove_fillers.
  unfold kept. now rewrite filter_filter.
Qed.

Lemma filter_id_existsb {A : Type} (f : A -> bool) (l : list A) :
  filter (fun x => negb (f x)) l = l -> existsb f l = false.
Proof.
  induction l as [|x l IH]; simpl; [reflexivity|].
  destruct (f x) eqn:E; simpl.
  - intros H. exfalso.
    assert (Hlen : List.length (filter (fun x => negb (f x)) l) <= List.length l)
      by apply filter_length_le.
    rewrite H in Hlen. simpl in Hlen. lia.
  - intros H. inversion H as [H']. rewrite H'. now apply IH.
Qed.

(** X1: the filter leaves a text as it is exactly when the text is in
    white-space-normal form and none of its tokens is a filler. *)
Theorem remove_fillers_fixed_point (W : list string) (T : string) :
  remove_fillers W T = T <->
  normalize_ws T = T /\ existsb (is_filler W) (split T) = false.
Proof.
  split.
  - intros H. split.
    + rewrite <- H. rewrite remove_fillers_kept. apply normalize_join.
      apply Forall_filter, split_words.
    + apply filter_id_existsb. fold (kept W (split T)).
      rewrite <- split_remove_fillers. now rewrite H.
  - intros [Hn Hf]. rewrite remove_fillers_kept, kept_no_fillers by exact Hf.
    now rewrite join_split_normalize.
Qed.

Lemma Tokens_space_app (ws s : string) (ts : list string) :
  all_space ws = true -> Tokens s ts -> Tokens (ws ++ s) ts.
Proof.
  induction ws as [|c ws IH]; simpl; intros H Hs; [exact Hs|].
  apply andb_true_iff in H as [Hc Hws].
  apply Tokens_space_cons; auto.
Qed.

Lemma at_boundary_app (rest : string) (c : ascii) (B : string) :
  at_boundary rest = true -> isspace c = true ->
  at_boundary (rest ++ String c B) = true.
Proof. destruct rest; simpl; auto. Qed.

Lemma Tokens_app (A : string) (ta : list string) (c : ascii) (B : string) (tb : list string) :
  isspace c = true -> Tokens A ta -> Tokens B tb ->
  Tokens (A ++ String c B) (ta ++ tb)%list.
Proof.
  intros Hc HA HB. induction HA as [ws Hws | ws w rest ts Hws Hne Hw Hr Hts IH].
  - simpl. apply Tokens_space_app; [exact Hws|]. now apply Tokens_space_cons.
  - rewrite !append_assoc. simpl.
    apply Tokens_cons; auto. now apply at_boundary_app.
Qed.

Lemma split_app (A B : string) (c : ascii) :
  isspace c = true -> split (A ++ String c B) = (split A ++ split B)%list.
Proof.
  intros Hc. symmetry. apply Tokens_split.
  apply Tokens_app; auto using split_Tokens.
Qed.

(** X2: the filter works part by part: for two texts put together with a
    white-space character between them, it returns the kept tokens of the
    first followed by the kept tokens of the second. *)
Theorem remove_fillers_app (W : list string) (A B : string) (c : ascii) :
  isspace c = true ->
  remove_fillers W (A ++ String c B) =
  join " " (kept W (split A) ++ kept W (split B))%list.
Proof.
  intros Hc. rewrite remove_fillers_kept, split_app by exact Hc.
  unfold kept. now rewrite filter_app.
Qed.

Lemma remove_fillers_app_test :
  remove_fillers ["uh"] ("uh hello" ++ String " " "uh world") =
  join " " (kept ["uh"] (split "uh hello") ++ kept ["uh"] (split "uh world"))%list.
Proof. apply remove_fillers_app. reflexivity. Defined.

Lemma length_append (a b : string) :
  String.length (a ++ b) = String.length a + String.length b.
Proof. induction a as [|c a IH]; simpl; [reflexivity | now rewrite IH]. Qed.

Lemma join_length (sep x : string) (r : list string) :
  String.length (join sep (x :: r)) =
  String.length x +
  match r with
  | [] => 0
  | _ => String.length sep + String.length (join sep r)
  end.
Proof.
  destruct r as [|y r]; [simpl; lia|].
  change (join sep (x :: y :: r)) with (x ++ sep ++ join sep (y :: r)).
  now rewrite !length_append.
Qed.

Lemma join_filter_length (f : string -> bool) (ts : list string) :
  String.length (join " " (filter f ts)) <= String.length (join " " ts).
Proof.
  induction ts as [|x r IH]; [simpl; lia|].
  rewrite join_length. simpl filter. destruct (f x).
  - rewrite join_length. destruct (filter f r) eqn:Ef.
    + lia.
    + destruct r as [|y r]; [discriminate|]. simpl String.length in *. lia.
  - destruct r as [|y r]; [simpl; lia|]. simpl String.length in *. lia.
Qed.

Lemma Tokens_length (T : string) (ts : list string) :
  Tokens T ts ->
  String.length (join " " ts) + (if nonempty ts && at_boundary T then 1 else 0)
  <= String.length T.
Proof.
  induction 1 as [ws Hws | ws w rest ts Hws Hne Hw Hr Hts IH].
  - simpl. lia.
  - rewrite Hr, andb_true_r in IH.
    rewrite join_length, !length_append.
    assert (Hlead : at_boundary (ws ++ w ++ rest) = true -> 1 <= String.length ws).
    { destruct ws as [|c ws]; [|simpl; lia].
      destruct w as [|c w]; [congruence|]. simpl in *.
      apply andb_true_iff in Hw as [Hc _]. apply negb_true_iff in Hc. congruence. }
    simpl nonempty. simpl andb.
    destruct (at_boundary (ws ++ w ++ rest)).
    + specialize (Hlead eq_refl). destruct ts; simpl in *; lia.
    + destruct ts; simpl in *; lia.
Qed.

(** X3: the filtered text is never longer than the text. *)
Theorem remove_fillers_length (W : list string) (T : string) :
  String.length (remove_fillers W T) <= String.length T.
Proof.
  rewrite remove_fillers_kept.
  pose proof (join_filter_length (fun w => negb (is_filler W w)) (split T)) as H1.
  pose proof (Tokens_length T (split T) (split_Tokens T)) as H2.
  unfold kept. lia.
Qed.

Lemma contains_In (W : list string) (x : string) : contains W x = true <-> In x W.
Proof.
  unfold contains. rewrite existsb_exists. split.
  - intros (y & Hy & E). apply String.eqb_eq in E. now subst.
  - intros H. exists x. split; [exact H | apply String.eqb_refl].
Qed.

Lemma contains_ext (W W' : list string) :
  (forall x, In x W <-> In x W') -> forall x, contains W x = contains W' x.
Proof.
  intros H x. destruct (contains W x) eqn:E.
  - symmetry. apply contains_In, H, contains_In, E.
  - destruct (contains W' x) eqn:E'; [|reflexivity].
    apply contains_In, H, contains_In in E'. congruence.
Qed.

(** X4: only the set of filler words counts: two word lists with the same
    members, in any order and with any repetitions, filter alike. *)
Theorem remove_fillers_same_members (W W' : list string) (T : string) :
  (forall x, In x W <-> In x W') ->
  remove_fillers W T = remove_fillers W' T.
Proof.
  intros H. unfold remove_fillers. f_equal.
  apply filter_ext. intros w. now rewrite (contains_ext W W' H).
Qed.

Lemma remove_fillers_same_members_test :
  remove_fillers ["uh"; "umm"] "umm well uh yes" =
  remove_fillers ["umm"; "uh"; "uh"] "umm well uh yes".
Proof.
  apply remove_fillers_same_members.
  intros x. simpl. tauto.
Defined.

Lemma lower_char_idem (c : ascii) : lower_char (lower_char c) = lower_char c.
Proof.
  destruct c as [b0 b1 b2 b3 b4 b5 b6 b7].
  destruct b0, b1, b2, b3, b4, b5, b6, b7; reflexivity.
Qed.

Lemma lower_idem (s : string) : lower (lower s) = lower s.
Proof.
  induction s as [|c s IH]; simpl; [reflexivity|].
  now rewrite lower_char_idem, IH.
Qed.

Lemma contains_lower_only (W : list string) (w : string) :
  contains W (lower w) = contains (filter is_lower W) (lower w).
Proof.
  unfold contains. induction W as [|x W IH]; simpl; [reflexivity|].
  unfold is_lower at 1. destruct (String.eqb (lower x) x) eqn:E; simpl.
  - now rewrite IH.
  - rewrite <- IH. destruct (String.eqb (lower w) x) eqn:E'; [|reflexivity].
    apply String.eqb_eq in E'. subst x. rewrite lower_idem, String.eqb_refl in E.
    discriminate.
Qed.

(** X5: a stored word that has an upper-case letter never matches, since
    tokens are compared lower-cased: a word list filters as its lower-case
    members do.  The list that [FillerRemoverSTT.__init__] stores has
    lower-case members only; [FilteredRecognizeStream.__init__] keeps what
    it is given. *)
Theorem remove_fillers_lower_members (W : list string) (T : string) :
  remove_fillers W T = remove_fillers (filter is_lower W) T /\
  (forall words, filter is_lower (init_filler_words words) = init_filler_words words).
Proof.
  split.
  - unfold remove_fillers. f_equal. apply filter_ext. intros w.
    now rewrite contains_lower_only.
  - intros words. unfold init_filler_words.
    induction words as [|x words IH]; simpl; [reflexivity|].
    unfold is_lower at 1. now rewrite lower_idem, String.eqb_refl, IH.
Qed.

Example upper_case_word_is_dead :
  remove_fillers ["Uh"] "Uh uh UH hello" = "Uh uh UH hello" /\
  remove_fillers (init_filler_words ["Uh"]) "Uh uh UH hello" = "hello".
Proof. split; reflexivity. Qed.

(** ** More on [__anext__] *)

Lemma anext_mock_fillers (W : list string) (events : list SpeechEvent)
    (fs rest : list SpeechEvent) :
  forallb (filler_only W) fs = true ->
  forall i fuel,
    skipn i events = (fs ++ rest)%list ->
    anext mock_stream W fuel (mkMock events i) =
    if (fuel <=? List.length fs)%nat then None
    else anext mock_stream W (fuel - List.length fs) (mkMock events (i + List.length fs)).
Proof.
  induction fs as [|f fs IH]; intros Hall i fuel Hs.
  - simpl. rewrite Nat.add_0_r, Nat.sub_0_r. now destruct fuel.
  - simpl in Hall. apply andb_true_iff in Hall as [Hf Hfs].
    destruct fuel as [|fuel]; [reflexivity|].
    simpl app in Hs. destruct (mock_anext_event _ _ _ _ Hs) as [Hu Hr].
    rewrite (anext_skip _ _ _ _ _ _ Hu Hf), (IH Hfs (S i) fuel Hr).
    simpl List.length. simpl Nat.leb. simpl Nat.sub.
    now replace (i + S (List.length fs)) with (S i + List.length fs) by lia.
Qed.

(** X6: when only filler-only events are left, [__anext__] consumes them all
    and raises [StopAsyncIteration]: the stream ends, no event is made up. *)
Theorem anext_trailing_fillers (W : list string) (events fs : list SpeechEvent)
    (i fuel : nat) :
  skipn i events = fs ->
  forallb (filler_only W) fs = true ->
  List.length fs < fuel ->
  anext mock_stream W fuel (mkMock events i) =
  Some (Raise StopAsyncIteration, mkMock events (i + List.length fs)).
Proof.
  intros Hs Hall Hf.
  rewrite (anext_mock_fillers W events fs [] Hall i fuel)
    by now rewrite app_nil_r.
  apply Nat.leb_gt in Hf as Hf'. rewrite Hf'.
  destruct (fuel - List.length fs) as [|k] eqn:E; [lia|].
  apply anext_raise, mock_anext_end.
  assert (Hlen : List.length (skipn i events) = List.length fs) by now rewrite Hs.
  rewrite length_skipn in Hlen. apply skipn_all2. lia.
Qed.

Lemma anext_trailing_fillers_test :
  anext mock_stream ["uh"; "umm"] 3 (mkMock test_events 2) =
  Some (Raise StopAsyncIteration, mkMock test_events 4).
Proof.
  apply (anext_trailing_fillers ["uh"; "umm"] test_events
           [transcript INTERIM_TRANSCRIPT "umm"; transcript FINAL_TRANSCRIPT "umm"] 2 3).
  - reflexivity.
  - reflexivity.
  - simpl. lia.
Defined.

(** X7: on a stream that delivers one filler-only event again and again,
    [__anext__] returns for no number of nested calls. *)
Theorem anext_never_returns {St Frame Value : Type}
    (u : Stream St Frame Value) (W : list string) (event : SpeechEvent) :
  (forall s, underlying_anext u s = (Return event, s)) ->
  filler_only W event = true ->
  forall fuel s, anext u W fuel s = None.
Proof.
  intros Hu Hf fuel. induction fuel as [|fuel IH]; intros s; [reflexivity|].
  now rewrite (anext_skip u W fuel s s event (Hu s) Hf).
Qed.

Lemma anext_never_returns_test :
  anext (repeat_stream (transcript INTERIM_TRANSCRIPT "umm")) ["umm"] 1000 tt = None.
Proof.
  apply (anext_never_returns (repeat_stream (transcript INTERIM_TRANSCRIPT "umm"))
           ["umm"] (transcript INTERIM_TRANSCRIPT "umm")).
  - intros []. reflexivity.
  - reflexivity.
Defined.

(** X8: with k filler-only events in front of an event that is not
    filler-only, [__anext__] needs k + 1 nested calls: k do not give a result,
    k + 1 give that event, forwarded. *)
Theorem anext_depth (W : list string) (fs : list SpeechEvent) (e : SpeechEvent)
    (rest : list SpeechEvent) :
  forallb (filler_only W) fs = true ->
  filler_only W e = false ->
  (forall fuel, fuel <= List.length fs ->
     anext mock_stream W fuel (mock_init (fs ++ e :: rest)) = None) /\
  anext mock_stream W (S (List.length fs)) (mock_init (fs ++ e :: rest)) =
    Some (Return (forwarded W e), mkMock (fs ++ e :: rest) (S (List.length fs))).
Proof.
  intros Hall He. split.
  - intros fuel Hle. unfold mock_init.
    rewrite (anext_mock_fillers W _ fs (e :: rest) Hall 0 fuel eq_refl).
    apply Nat.leb_le in Hle. now rewrite Hle.
  - unfold mock_init.
    rewrite (anext_mock_fillers W _ fs (e :: rest) Hall 0 _ eq_refl).
    assert (Hgt : (S (List.length fs) <=? List.length fs)%nat = false)
      by (apply Nat.leb_gt; lia).
    rewrite Hgt. replace (S (List.length fs) - List.length fs) with 1 by lia.
    simpl Nat.add.
    assert (Hs : skipn (List.length fs) (fs ++ e :: rest) = e :: rest).
    { rewrite skipn_app, Nat.sub_diag, skipn_all. reflexivity. }
    destruct (mock_anext_event _ _ _ _ Hs) as [Hu _].
    apply (anext_forward _ _ _ _ _ _ Hu He).
Qed.

Lemma anext_depth_test :
  (forall fuel, fuel <= 2 ->
     anext mock_stream ["uh"; "umm"] fuel
       (mock_init [transcript INTERIM_TRANSCRIPT "umm"; transcript INTERIM_TRANSCRIPT "uh";
                   transcript FINAL_TRANSCRIPT "uh stop"]) = None) /\
  anext mock_stream ["uh"; "umm"] 3
    (mock_init [transcript INTERIM_TRANSCRIPT "umm"; transcript INTERIM_TRANSCRIPT "uh";
                transcript FINAL_TRANSCRIPT "uh stop"]) =
  Some (Return (transcript FINAL_TRANSCRIPT "stop"),
        mkMock [transcript INTERIM_TRANSCRIPT "umm"; transcript INTERIM_TRANSCRIPT "uh";
                transcript FINAL_TRANSCRIPT "uh stop"] 3).
Proof.
  apply (anext_depth ["uh"; "umm"]
           [transcript INTERIM_TRANSCRIPT "umm"; transcript INTERIM_TRANSCRIPT "uh"]
           (transcript FINAL_TRANSCRIPT "uh stop") []); reflexivity.
Defined.

(** ** Stream and batch side by side *)

(** X9: the batch operation has no test of the event type: an event that is
    not a transcript but has alternatives comes back rewritten (filtered
    text, one alternative), while the stream hands it on as it is; the two
    agree only if the event has a single alternative whose text the filter
    leaves alone. *)
Theorem non_transcript_rewritten_in_batch
    {St Frame Value Eng AudioBuffer Language APIConnectOptions : Type}
    (W : list string) (event : SpeechEvent) (alt0 : SpeechData) (rest : list SpeechData) :
  is_transcript (type event) = false ->
  alternatives event = alt0 :: rest ->
  (forall (u : Stream St Frame Value) (fuel : nat) (s s1 : St),
      underlying_anext u s = (Return event, s1) ->
      anext u W (S fuel) s = Some (Return event, s1)) /\
  (forall (recognize : AudioBuffer -> Language -> APIConnectOptions -> method Eng SpeechEvent)
          (b : AudioBuffer) (l : Language) (o : APIConnectOptions) (s s1 : Eng),
      recognize b l o s = (Return event, s1) ->
      recognize_impl recognize W b l o s =
      (Return (new_event event alt0 (remove_fillers W (text alt0))), s1)) /\
  (new_event event alt0 (remove_fillers W (text alt0)) = event <->
   rest = [] /\ remove_fillers W (text alt0) = text alt0).
Proof.
  intros Ht Ha. split; [|split].
  - intros u fuel s s1 Hu. simpl. now rewrite Hu, Ht.
  - intros recognize b l o s s1 H. now rewrite recognize_impl_step, H, Ha.
  - destruct event as [ty alts]. destruct alt0 as [lg tx st en cf].
    simpl in *. subst alts. unfold new_event. simpl. split.
    + intros H. inversion H as [[Htx Hrest]]. split; congruence.
    + intros [Hrest Htx]. subst rest. now rewrite Htx.
Qed.

Lemma non_transcript_rewritten_in_batch_test :
  anext mock_stream ["uh"] 1 (mock_init [marker_event]) =
    Some (Return marker_event, mkMock [marker_event] 1) /\
  recognize_impl (mock_recognize marker_event) ["uh"] tt tt tt tt =
    (Return {| type := END_OF_SPEECH; alternatives := [speech_data "bye" "en"] |}, tt).
Proof.
  pose proof (@non_transcript_rewritten_in_batch MockRecognizeStream unit unit
                unit unit unit unit ["uh"] marker_event
                (speech_data "uh bye" "en") [] eq_refl eq_refl) as [H1 [H2 _]].
  split.
  - apply H1. reflexivity.
  - apply (H2 (mock_recognize marker_event) tt tt tt tt tt). reflexivity.
Defined.

Lemma remove_fillers_blank (W : list string) (T : string) :
  all_space T = true -> remove_fillers W T = "".
Proof.
  intros H. rewrite remove_fillers_kept, split_all_space by exact H. reflexivity.
Qed.

(** X10: a transcript event whose text is empty or white space only is
    skipped by the stream whatever the word list, the empty list too; the
    batch operation returns it with the empty string as text. *)
Theorem blank_transcript_skipped
    {St Frame Value Eng AudioBuffer Language APIConnectOptions : Type}
    (W : list string) (event : SpeechEvent) (alt0 : SpeechData) (rest : list SpeechData) :
  is_transcript (type event) = true ->
  alternatives event = alt0 :: rest ->
  all_space (text alt0) = true ->
  (forall (u : Stream St Frame Value) (fuel : nat) (s s1 : St),
      underlying_anext u s = (Return event, s1) ->
      anext u W (S fuel) s = anext u W fuel s1) /\
  (forall (recognize : AudioBuffer -> Language -> APIConnectOptions -> method Eng SpeechEvent)
          (b : AudioBuffer) (l : Language) (o : APIConnectOptions) (s s1 : Eng),
      recognize b l o s = (Return event, s1) ->
      recognize_impl recognize W b l o s = (Return (new_event event alt0 ""), s1)).
Proof.
  intros Ht Ha Hsp. split.
  - intros u fuel s s1 Hu. apply (anext_skip u W fuel s s1 event Hu).
    unfold filler_only. rewrite Ht, Ha. now rewrite remove_fillers_blank.
  - intros recognize b l o s s1 H.
    rewrite recognize_impl_step, H, Ha. now rewrite remove_fillers_blank.
Qed.

Lemma blank_transcript_skipped_test :
  anext mock_stream [] 2
    (mock_init [transcript FINAL_TRANSCRIPT "  "; transcript FINAL_TRANSCRIPT "stop"]) =
  anext mock_stream [] 1
    (mkMock [transcript FINAL_TRANSCRIPT "  "; transcript FINAL_TRANSCRIPT "stop"] 1) /\
  recognize_impl (mock_recognize (transcript FINAL_TRANSCRIPT "  ")) [] tt tt tt tt =
    (Return (transcript FINAL_TRANSCRIPT ""), tt).
Proof.
  pose proof (@blank_transcript_skipped MockRecognizeStream unit unit
                unit unit unit unit [] (transcript FINAL_TRANSCRIPT "  ")
                (speech_data "  " "en") [] eq_refl eq_refl eq_refl) as [H1 H2].
  split.
  - apply H1. reflexivity.
  - apply (H2 (mock_recognize (transcript FINAL_TRANSCRIPT "  ")) tt tt tt tt tt).
    reflexivity.
Defined.

(** ** Filtering a filtered stream *)

Lemma forwarded_not_filler_only (W : list string) (e : SpeechEvent) :
  filler_only W e = false -> filler_only W (forwarded W e) = false.
Proof.
  unfold filler_only, forwarded.
  destruct (is_transcript (type e)) eqn:Ht; [|now rewrite Ht].
  destruct (alternatives e) as [|alt0 rest] eqn:Ha.
  - intros _. now rewrite Ht, Ha.
  - simpl. rewrite Ht. simpl. now rewrite remove_fillers_again.
Qed.

Lemma forwarded_again (W : list string) (e : SpeechEvent) :
  forwarded W (forwarded W e) = forwarded W e.
Proof.
  unfold forwarded.
  destruct (is_transcript (type e)) eqn:Ht; [|now rewrite Ht].
  destruct (alternatives e) as [|alt0 rest] eqn:Ha; [now rewrite Ht, Ha|].
  simpl. rewrite Ht. unfold new_event. simpl. now rewrite remove_fillers_again.
Qed.

Lemma survivors_again (W : list string) (events : list SpeechEvent) :
  survivors W (survivors W events) = survivors W events.
Proof.
  induction events as [|e events IH]; [reflexivity|].
  rewrite (survivors_cons W e events).
  destruct (filler_only W e) eqn:F; [exact IH|].
  rewrite survivors_cons, forwarded_not_filler_only by exact F.
  now rewrite forwarded_again, IH.
Qed.

Lemma survivors_le (W : list string) (events : list SpeechEvent) :
  List.length (survivors W events) <= List.length events.
Proof. pose proof (survivors_length W events). lia. Qed.

(** X11: a second adapter with the same words changes nothing: the events
    that the adapter delivers, replayed through the adapter, come out the
    same, none skipped and none altered. *)
Theorem stream_filtered_twice (W : list string) (events : list SpeechEvent) (n fuel : nat) :
  List.length events < n ->
  List.length events < fuel ->
  exists out s1 s2,
    async_for mock_stream W n fuel (mock_init events) = Some (out, None, s1) /\
    async_for mock_stream W n fuel (mock_init out) = Some (out, None, s2).
Proof.
  intros Hn Hf. pose proof (survivors_le W events) as Hle.
  exists (survivors W events). do 2 eexists. split.
  - apply (async_for_mock W events events 0 n fuel); auto.
  - unfold mock_init.
    rewrite (async_for_mock W (survivors W events) (survivors W events) 0 n fuel)
      by (auto; lia).
    now rewrite survivors_again.
Qed.

Lemma stream_filtered_twice_test :
  exists out s1 s2,
    async_for mock_stream ["uh"; "umm"] 5 5 (mock_init test_events) = Some (out, None, s1) /\
    async_for mock_stream ["uh"; "umm"] 5 5 (mock_init out) = Some (out, None, s2).
Proof.
  apply (stream_filtered_twice ["uh"; "umm"] test_events 5 5); simpl; lia.
Defined.

(** ** The first version against the current one *)

(** X12: the generator of the first version reads [event.alternatives[0]]
    without a guard: on a transcript event without alternatives it raises
    [IndexError] and is finished, so that every later call raises
    [StopAsyncIteration]; the current [__anext__] returns the event. *)
Theorem legacy_stream_index_error {St Frame Value : Type}
    (u : Stream St Frame Value) (W : list string) (fuel : nat) (s s1 : St)
    (event : SpeechEvent) :
  underlying_anext u s = (Return event, s1) ->
  is_transcript (type event) = true ->
  alternatives event = [] ->
  Legacy.stream_anext u W (S fuel) (false, s) = Some (Raise IndexError, (true, s1)) /\
  (forall fuel', Legacy.stream_anext u W (S fuel') (true, s1) =
                 Some (Raise StopAsyncIteration, (true, s1))) /\
  anext u W (S fuel) s = Some (Return event, s1).
Proof.
  intros Hu Ht Ha. split; [|split].
  - simpl. now rewrite Hu, Ht, Ha.
  - reflexivity.
  - simpl. now rewrite Hu, Ht, Ha.
Qed.

Lemma legacy_stream_index_error_test :
  Legacy.stream_anext mock_stream ["uh"] 1
    (false, mock_init [mkSpeechEvent FINAL_TRANSCRIPT []]) =
    Some (Raise IndexError, (true, mkMock [mkSpeechEvent FINAL_TRANSCRIPT []] 1)) /\
  anext mock_stream ["uh"] 1 (mock_init [mkSpeechEvent FINAL_TRANSCRIPT []]) =
    Some (Return (mkSpeechEvent FINAL_TRANSCRIPT []),
          mkMock [mkSpeechEvent FINAL_TRANSCRIPT []] 1).
Proof.
  pose proof (legacy_stream_index_error mock_stream ["uh"] 0
                (mock_init [mkSpeechEvent FINAL_TRANSCRIPT []])
                (mkMock [mkSpeechEvent FINAL_TRANSCRIPT []] 1)
                (mkSpeechEvent FINAL_TRANSCRIPT []) eq_refl eq_refl eq_refl)
    as [H1 [_ H3]].
  split; assumption.
Defined.




(** ** Streams that replay a list *)

Section ListLike.

Context {St Frame Value : Type}.
Variable u : Stream St Frame Value.
Variable remaining : St -> list SpeechEvent.
Variable W : list string.
Hypothesis Hlist : list_like u remaining.

Lemma anext_list_like_returns (l : list SpeechEvent) :
  forall s fuel,
    remaining s = l -> List.length l < fuel ->
    exists r, anext u W fuel s = Some r.
Proof.
  induction l as [|e l IH]; intros s fuel Hl Hf;
    (destruct fuel as [|fuel]; [simpl in Hf; lia|]);
    pose proof (Hlist s) as Hs; rewrite Hl in Hs.
  - rewrite (anext_raise u W fuel s s _ Hs). eauto.
  - destruct Hs as (s1 & Hu & Hr). rewrite anext_step, Hu.
    destruct (filler_only W e); [|eauto].
    apply (IH s1 fuel Hr). simpl in Hf. lia.
Qed.

Lemma async_for_list_like (l : list SpeechEvent) :
  forall s n fuel,
    remaining s = l -> List.length l < n -> List.length l < fuel ->
    exists s', async_for u W n fuel s = Some (survivors W l, None, s') /\
               remaining s' = [].
Proof.
  induction l as [|e l IH]; intros s n fuel Hl Hn Hf;
    (destruct n as [|n]; [simpl in Hn; lia|]);
    (destruct fuel as [|fuel]; [simpl in Hf; lia|]);
    pose proof (Hlist s) as Hs; rewrite Hl in Hs.
  - exists s. cbn [async_for]. rewrite (anext_raise u W fuel s s _ Hs). now split.
  - destruct Hs as (s1 & Hu & Hr). simpl in Hn, Hf.
    rewrite survivors_cons. destruct (filler_only W e) eqn:F.
    + destruct (anext_list_like_returns l s1 fuel Hr) as [r Hret]; [lia|].
      destruct (IH s1 (S n) (S fuel) Hr) as (s' & Hrun & Hend); [lia | lia |].
      exists s'. split; [|exact Hend]. rewrite <- Hrun.
      cbn [async_for].
      rewrite (anext_skip u W fuel s s1 e Hu F), Hret.
      now rewrite (anext_mono u W fuel s1 r Hret).
    + destruct (IH s1 n (S fuel) Hr) as (s' & Hrun & Hend); [lia | lia |].
      exists s'. split; [|exact Hend].
      cbn [async_for]. rewrite (anext_forward u W fuel s s1 e Hu F).
      now rewrite Hrun.
Qed.

End ListLike.

(** ** The mocks of the scenario tests through the wrapper *)

Lemma scenario_stream_list_like :
  list_like Scenarios.MockRecognizeStream.stream scenario_remaining.
Proof.
  intros [ts i]. unfold scenario_remaining. simpl.
  unfold underlying_anext, Scenarios.MockRecognizeStream.stream,
    Scenarios.MockRecognizeStream.anext, getitem. simpl.
  destruct (skipn i ts) as [|t r] eqn:E; simpl.
  - apply skipn_nil_length in E. apply Nat.leb_le in E. now rewrite E.
  - apply skipn_cons_nth in E as [Hn Hr].
    assert (Hlt : i < List.length ts) by (apply nth_error_Some; congruence).
    apply Nat.leb_gt in Hlt. rewrite Hlt, Hn, Nat.add_1_r.
    eexists. split; [reflexivity|].
    cbn [Scenarios.MockRecognizeStream.index Scenarios.MockRecognizeStream.transcripts].
    now rewrite Hr.
Qed.

Lemma truthy_remove_fillers (W : list string) (T : string) :
  truthy (remove_fillers W T) = truthy (strip (remove_fillers W T)).
Proof.
  rewrite strip_remove_fillers, remove_fillers_kept.
  assert (H : Forall is_word (kept W (split T))) by apply Forall_filter, split_words.
  destruct H as [|w ts Hw Hts]; [reflexivity|].
  destruct (join_start w ts Hw) as (c & s & _ & E). now rewrite E.
Qed.

Lemma actual_outputs_survivors (W : list string) (ts : list string) :
  Scenarios.actual_outputs (survivors W (map (transcript FINAL_TRANSCRIPT) ts)) =
  filter truthy (map (remove_fillers W) ts).
Proof.
  induction ts as [|t ts IH]; [reflexivity|].
  simpl map. rewrite survivors_cons. simpl filter.
  rewrite truthy_remove_fillers.
  unfold filler_only. simpl.
  destruct (truthy (strip (remove_fillers W t))); simpl; now rewrite IH.
Qed.

(** X14: the streaming test in general: for every list of transcripts and
    every configured word list, the loop over the stream of a wrapper around
    [MockSTT] ends normally, and the texts it collects are the filtered
    transcripts that are not empty, in order. *)
Theorem scenario_streaming (transcripts words : list string) (n fuel : nat) :
  List.length transcripts < n ->
  List.length transcripts < fuel ->
  exists out s',
    async_for (_underlying_stream (fst (scenario_stream transcripts words)))
              (_stream_filler_words (fst (scenario_stream transcripts words)))
              n fuel (snd (scenario_stream transcripts words)) =
      Some (out, None, s') /\
    Scenarios.actual_outputs out =
      filter truthy (map (remove_fillers (init_filler_words words)) transcripts).
Proof.
  intros Hn Hf. unfold scenario_stream. simpl.
  destruct (async_for_list_like Scenarios.MockRecognizeStream.stream scenario_remaining
              (init_filler_words words) scenario_stream_list_like
              (map (transcript FINAL_TRANSCRIPT) transcripts)
              (Scenarios.MockRecognizeStream.mk transcripts 0) n fuel)
    as (s' & Hrun & _).
  - reflexivity.
  - now rewrite length_map.
  - now rewrite length_map.
  - exists (survivors (init_filler_words words)
              (map (transcript FINAL_TRANSCRIPT) transcripts)), s'.
    split; [exact Hrun | apply actual_outputs_survivors].
Qed.

Lemma scenario_streaming_test :
  exists out s',
    async_for (_underlying_stream
                 (fst (scenario_stream ["uh hello"; "uh hello world"; "umm"; "wait stop"]
                         ["uh"; "umm"; "hmm"])))
              (_stream_filler_words
                 (fst (scenario_stream ["uh hello"; "uh hello world"; "umm"; "wait stop"]
                         ["uh"; "umm"; "hmm"])))
              5 5
              (snd (scenario_stream ["uh hello"; "uh hello world"; "umm"; "wait stop"]
                      ["uh"; "umm"; "hmm"])) =
      Some (out, None, s') /\
    Scenarios.actual_outputs out = ["hello"; "hello world"; "wait stop"].
Proof.
  apply (scenario_streaming ["uh hello"; "uh hello world"; "umm"; "wait stop"]
           ["uh"; "umm"; "hmm"] 5 5); simpl; lia.
Defined.

Lemma recognize_loop_from (W : list string) (ts : list string) (n : nat) :
  forall i rest,
    skipn i ts = rest ->
    Scenarios.recognize_loop W n (Scenarios.MockSTT.mk ts i) =
    (Return (map (remove_fillers W)
               (firstn n rest ++ repeat "default response" (n - List.length rest))%list),
     Scenarios.MockSTT.mk ts (i + Nat.min n (List.length rest))).
Proof.
  induction n as [|n IH]; intros i rest Hs.
  - simpl. now rewrite Nat.add_0_r.
  - cbn [Scenarios.recognize_loop]. rewrite recognize_impl_step.
    unfold Scenarios.MockSTT.recognize_impl, getitem. simpl.
    destruct rest as [|t r].
    + pose proof (skipn_nil_length _ _ Hs) as Hle.
      assert (Hlt : (i <? List.length ts)%nat = false) by (apply Nat.ltb_ge; lia).
      rewrite Hlt. simpl. rewrite (IH i [] Hs). simpl.
      now rewrite Nat.sub_0_r, Nat.min_0_r, firstn_nil.
    + apply skipn_cons_nth in Hs as [Hn Hr].
      assert (Hlt : i < List.length ts) by (apply nth_error_Some; congruence).
      apply Nat.ltb_lt in Hlt. rewrite Hlt, Hn. simpl.
      rewrite Nat.add_1_r, (IH (S i) r Hr). simpl.
      now replace (S (i + Nat.min n (List.length r)))
        with (i + S (Nat.min n (List.length r))) by lia.
Qed.

(** X15: the batch loop of the scenario tests in general: [n] recognitions
    through a wrapper around [MockSTT] give the first [n] transcripts
    filtered, in order, then the filtered default text for every call past
    the end of the list; the mock's index stops at the end of the list. *)
Theorem scenario_batch (transcripts words : list string) (n : nat) :
  Scenarios.recognize_loop
    (_filler_words (FillerRemoverSTT_init (Scenarios.MockSTT.mk transcripts 0) words))
    n (_underlying_stt (FillerRemoverSTT_init (Scenarios.MockSTT.mk transcripts 0) words)) =
  (Return (map (remove_fillers (init_filler_words words))
             (firstn n transcripts ++
              repeat "default response" (n - List.length transcripts))%list),
   Scenarios.MockSTT.mk transcripts (Nat.min n (List.length transcripts))).
Proof.
  simpl. now rewrite (recognize_loop_from _ transcripts n 0 transcripts eq_refl).
Qed.

(** ** What the two adapters share *)

(** X16: an event that the stream delivers for a transcript event is the very
    event that the batch operation returns for it. *)
Theorem stream_and_batch_agree
    {St Frame Value Eng AudioBuffer Language APIConnectOptions : Type}
    (u : Stream St Frame Value)
    (recognize : AudioBuffer -> Language -> APIConnectOptions -> method Eng SpeechEvent)
    (W : list string) (event : SpeechEvent) (fuel : nat) (s s1 : St)
    (b : AudioBuffer) (l : Language) (o : APIConnectOptions) (es es1 : Eng) :
  is_transcript (type event) = true ->
  filler_only W event = false ->
  underlying_anext u s = (Return event, s1) ->
  recognize b l o es = (Return event, es1) ->
  exists out,
    anext u W (S fuel) s = Some (Return out, s1) /\
    recognize_impl recognize W b l o es = (Return out, es1).
Proof.
  intros Ht Hf Hu Hr. exists (forwarded W event). split.
  - apply (anext_forward u W fuel s s1 event Hu Hf).
  - rewrite recognize_impl_step, Hr. unfold forwarded. rewrite Ht.
    now destruct (alternatives event).
Qed.

Lemma stream_and_batch_agree_test :
  exists out,
    anext mock_stream ["uh"; "umm"] 1 (mock_init test_events) =
      Some (Return out, mkMock test_events 1) /\
    recognize_impl (mock_recognize (transcript INTERIM_TRANSCRIPT "uh hello"))
      ["uh"; "umm"] tt tt tt tt = (Return out, tt).
Proof.
  apply (stream_and_batch_agree mock_stream
           (mock_recognize (transcript INTERIM_TRANSCRIPT "uh hello"))
           ["uh"; "umm"] (transcript INTERIM_TRANSCRIPT "uh hello") 0
           (mock_init test_events) (mkMock test_events 1) tt tt tt tt tt);
    reflexivity.
Defined.

(** X17: with the word list that [FillerRemoverSTT.__init__] stores, the
    tokens of the filtered text are the tokens of the text that equal no
    configured word up to case. *)
Theorem remove_fillers_up_to_case (words : list string) (T : string) (w : string) :
  In w (split (remove_fillers (init_filler_words words) T)) <->
  In w (split T) /\ ~ (exists x, In x words /\ lower x = lower w).
Proof.
  rewrite split_remove_fillers. unfold kept. rewrite filter_In.
  rewrite negb_true_iff, <- is_filler_init.
  split; intros [H1 H2]; (split; [exact H1|]).
  - now rewrite H2.
  - now destruct (is_filler (init_filler_words words) w).
Qed.
